(** * PFC: the computation engine of the personal-finance chatbot

    A shallow embedding of [src/PFC.py]: the progressive-slab tax
    estimator ([IndiaTaxCalculator]), the annuity formulas
    ([future_value_sip], [required_sip], [emi]), [retirement_target] and
    [suggest_allocation]; then [clamp], [currency], the property
    [savings_capacity], what the handlers [cmd_emi], [cmd_retirement] and
    [cmd_allocate] compute, and the choice of a handler by
    [handle_freeform] and [run].

    Python [float] values are reached through one interface, [PyFloat],
    with two instances.  [Binary64] is IEEE-754 double precision (the
    primitive floats of the kernel): [+], [-], [*], [/] and the comparisons
    are bit-exact.  [Exact] is the field of rationals: the same program
    read with real arithmetic, in which the algebraic statements of the
    specification are stated.  Every function of the source is written
    once, over the interface, and run at both instances. *)

From Stdlib Require Import ZArith QArith Qround Qabs Qpower.
From Stdlib Require Import List String Ascii Bool Lia Lqa.
From Stdlib Require Import Floats.
From Stdlib Require Import DecimalString.
Import ListNotations.

Set Implicit Arguments.

(** ** Exceptions

    The engine raises nothing itself; what can escape from it are the
    exceptions of the arithmetic ([ZeroDivisionError] from [/] and [**],
    [OverflowError] and [ValueError] from [round] and [**]) and a
    [KeyError] from a dictionary subscript. *)

Inductive exn : Type :=
| ZeroDivisionError
| OverflowError
| ValueError
| KeyError.

Inductive result (A : Type) : Type :=
| Ok (a : A)
| Raise (e : exn).

Arguments Ok {A} a.
Arguments Raise {A} e.

Definition bind {A B : Type} (c : result A) (k : A -> result B) : result B :=
  match c with
  | Ok a => k a
  | Raise e => Raise e
  end.

Declare Scope py_scope.
Delimit Scope py_scope with py.

Notation "x <- c ;; k" := (bind c (fun x => k))
  (at level 61, c at next level, right associativity) : py_scope.

Definition returns {A : Type} (c : result A) : bool :=
  match c with
  | Ok _ => true
  | Raise _ => false
  end.

(** ** Rounding of an exact value

    [round(x)] and [round(x, 2)] round the exact value of [x] to the
    nearest integer (resp. hundredth), ties to the even one. *)

Definition round_half_even (x : Q) : Z :=
  let f := Qfloor x in
  match (x - inject_Z f ?= 1 # 2)%Q with
  | Lt => f
  | Gt => (f + 1)%Z
  | Eq => if Z.even f then f else (f + 1)%Z
  end.

(** ** The interface of Python floats *)

Class PyFloat (F : Type) : Type := {
  (** a decimal literal of the source: [lit m d] is the literal of value
      [m / d], as [lit 5 100] for [0.05] and [lit 700000 1] for
      [700000.0] *)
  lit : Z -> positive -> F;
  (** the conversion of an [int] operand in mixed arithmetic *)
  of_int : Z -> F;
  fadd : F -> F -> F;
  fsub : F -> F -> F;
  fmul : F -> F -> F;
  (** the quotient, for a divisor that is not zero *)
  fquot : F -> F -> F;
  feqb : F -> F -> bool;
  fltb : F -> F -> bool;
  fleb : F -> F -> bool;
  (** [x ** n] for an [int] exponent *)
  fpow : F -> Z -> result F;
  (** [round(x)], an [int] *)
  round_int : F -> result Z;
  (** [round(x, 2)] *)
  round_2 : F -> F;
  (** the exact value, when there is one *)
  exact : F -> option Q
}.

(** *** Real arithmetic *)

Definition Qltb (x y : Q) : bool := negb (Qle_bool y x).

Definition Qpow (x : Q) (n : Z) : result Q :=
  if (n <? 0)%Z && Qeq_bool x 0%Q then Raise ZeroDivisionError
  else Ok (Qpower x n).

#[export] Instance Exact : PyFloat Q := {
  lit m d := (m # d)%Q;
  of_int := inject_Z;
  fadd := Qplus;
  fsub := Qminus;
  fmul := Qmult;
  fquot := Qdiv;
  feqb := Qeq_bool;
  fltb := Qltb;
  fleb := Qle_bool;
  fpow := Qpow;
  round_int x := Ok (round_half_even x);
  round_2 x := (round_half_even (x * 100) # 100)%Q;
  exact x := Some x
}.

(** *** IEEE-754 binary64 *)

Definition f64_of_Z (z : Z) : float :=
  SF2Prim (binary_normalize 53 1024 z 0 false).

Definition f64_exact (x : float) : option Q :=
  match Prim2SF x with
  | S754_zero _ => Some 0%Q
  | S754_finite s m e =>
      let v := (inject_Z (Z.pos m) * Qpower 2 e)%Q in
      Some (if s then (- v)%Q else v)
  | S754_infinity _ => None
  | S754_nan => None
  end.

(** The C library's [pow] is not specified to the last bit.  It returns
    exactly [1.0] for the exponent [0] and for the base [1.0], and the
    base itself for the exponent [1]; beyond these, repeated
    multiplication stands for it: the last bits can differ, and a
    negative exponent whose power overflows gives a float here where the
    source raises [OverflowError].  The binary64 statements of this file
    that reach [**] do so with the exponent [0] or the base [1.0], or
    hold of any power. *)
Definition f64_pow (x : float) (n : Z) : result float :=
  match n with
  | Z0 => Ok PrimFloat.one
  | Zpos p =>
      let y := Pos.iter (PrimFloat.mul x) PrimFloat.one p in
      if PrimFloat.is_infinity y && negb (PrimFloat.is_infinity x)
      then Raise OverflowError else Ok y
  | Zneg p =>
      if PrimFloat.eqb x PrimFloat.zero then Raise ZeroDivisionError
      else Ok (PrimFloat.div PrimFloat.one
                 (Pos.iter (PrimFloat.mul x) PrimFloat.one p))
  end.

Definition f64_round_int (x : float) : result Z :=
  match f64_exact x with
  | Some q => Ok (round_half_even q)
  | None => Raise (if PrimFloat.is_nan x then ValueError else OverflowError)
  end.

(** [round(x, 2)]: the decimal nearest to the exact value of [x], then the
    float nearest to that decimal.  A float that is not finite is returned
    as it is; a result that rounds to zero keeps the sign of [x].  The
    hundredths [k] of the claims are small integers; the quotient [k / 100]
    is the correctly rounded float as long as [|k| < 2^53]. *)
Definition f64_round_2 (x : float) : float :=
  match f64_exact x with
  | Some q =>
      let k := round_half_even (q * 100)%Q in
      if (k =? 0)%Z then PrimFloat.mul x PrimFloat.zero
      else PrimFloat.div (f64_of_Z k) (f64_of_Z 100)
  | None => x
  end.

#[export] Instance Binary64 : PyFloat float := {
  lit m d := PrimFloat.div (f64_of_Z m) (f64_of_Z (Z.pos d));
  of_int := f64_of_Z;
  fadd := PrimFloat.add;
  fsub := PrimFloat.sub;
  fmul := PrimFloat.mul;
  fquot := PrimFloat.div;
  feqb := PrimFloat.eqb;
  fltb := PrimFloat.ltb;
  fleb := PrimFloat.leb;
  fpow := f64_pow;
  round_int := f64_round_int;
  round_2 := f64_round_2;
  exact := f64_exact
}.

(** ** Strings

    [str.lower] and [str.strip] on ASCII strings. *)

Definition lower_ascii (c : ascii) : ascii :=
  let n := nat_of_ascii c in
  if (65 <=? n)%nat && (n <=? 90)%nat then ascii_of_nat (n + 32) else c.

Fixpoint lower (s : string) : string :=
  match s with
  | EmptyString => EmptyString
  | String c s' => String (lower_ascii c) (lower s')
  end.

Definition is_space (c : ascii) : bool :=
  let n := nat_of_ascii c in
  ((9 <=? n)%nat && (n <=? 13)%nat) || ((28 <=? n)%nat && (n <=? 32)%nat).

Fixpoint lstrip (s : string) : string :=
  match s with
  | EmptyString => EmptyString
  | String c s' => if is_space c then lstrip s' else s
  end.

Fixpoint rstrip (s : string) : string :=
  match s with
  | EmptyString => EmptyString
  | String c s' =>
      match rstrip s' with
      | EmptyString => if is_space c then EmptyString else String c EmptyString
      | t => String c t
      end
  end.

Definition strip (s : string) : string := rstrip (lstrip s).

(** ** Operators of the language over the interface *)

Section Operators.

Context {F : Type} `{PyFloat F}.

(** [x / y] raises on a zero divisor. *)
Definition truediv (x y : F) : result F :=
  if feqb y (of_int 0) then Raise ZeroDivisionError else Ok (fquot x y).

(** [max(a, b)] keeps [a] unless [b > a]; [min(a, b)] keeps [a] unless
    [b < a]. *)
Definition pymax (a b : F) : F := if fltb a b then b else a.
Definition pymin (a b : F) : F := if fltb b a then b else a.

(** The truth value of a float in a condition. *)
Definition truthy (x : F) : bool := negb (feqb x (of_int 0)).

Definition clamp (x lo hi : F) : F := pymax lo (pymin hi x).

End Operators.

Infix "+" := fadd : py_scope.
Infix "-" := fsub : py_scope.
Infix "*" := fmul : py_scope.
Infix "/" := truediv : py_scope.
Infix "**" := fpow (at level 30, right associativity) : py_scope.
Infix "==" := feqb (at level 70, no associativity) : py_scope.
Infix "<?" := fltb (at level 70, no associativity) : py_scope.
Infix "<=?" := fleb (at level 70, no associativity) : py_scope.
Notation "x >? y" := (fltb y x) (at level 70, no associativity) : py_scope.

(** ** Tax engine *)

Section TaxEngine.

Context {F : Type} `{PyFloat F}.

Local Open Scope string_scope.
Local Open Scope py_scope.

Record TaxSlab : Type := {
  up_to : option F;
  rate : F
}.

Record TaxConfig : Type := {
  rebate_threshold_new : F;
  rebate_threshold_old : F;
  std_deduction_new : F;
  std_deduction_old : F;
  max_80C_old : F;
  max_80D_old : F;
  cess_rate : F;
  slabs_new : list TaxSlab;
  slabs_old : list TaxSlab
}.

(** [TaxConfig()], the defaults of the dataclass. *)
Definition default_config : TaxConfig := {|
  rebate_threshold_new := lit 700000 1;
  rebate_threshold_old := lit 500000 1;
  std_deduction_new := lit 50000 1;
  std_deduction_old := lit 50000 1;
  max_80C_old := lit 150000 1;
  max_80D_old := lit 25000 1;
  cess_rate := lit 4 100;
  slabs_new :=
    [ {| up_to := Some (of_int 300000); rate := lit 0 100 |};
      {| up_to := Some (of_int 600000); rate := lit 5 100 |};
      {| up_to := Some (of_int 900000); rate := lit 10 100 |};
      {| up_to := Some (of_int 1200000); rate := lit 15 100 |};
      {| up_to := Some (of_int 1500000); rate := lit 20 100 |};
      {| up_to := None; rate := lit 30 100 |} ];
  slabs_old :=
    [ {| up_to := Some (of_int 250000); rate := lit 0 100 |};
      {| up_to := Some (of_int 500000); rate := lit 5 100 |};
      {| up_to := Some (of_int 1000000); rate := lit 20 100 |};
      {| up_to := None; rate := lit 30 100 |} ]
|}.

(** The loop of [_slab_tax], from a state [(tax, lower)]. *)
Fixpoint slab_loop (taxable : F) (slabs : list TaxSlab) (tax lower : F) : F :=
  match slabs with
  | [] => tax
  | slab :: rest =>
      let upper :=
        match up_to slab with Some u => u | None => taxable end in
      let tax :=
        if taxable >? lower then
          let segment := pymin taxable upper - lower in
          if segment >? of_int 0 then tax + segment * rate slab else tax
        else tax in
      let lower := upper in
      if taxable <=? lower then tax
      else slab_loop taxable rest tax lower
  end.

Definition _slab_tax (taxable : F) (slabs : list TaxSlab) : F :=
  slab_loop taxable slabs (lit 0 1) (lit 0 1).

(** The dictionary that [estimate] returns, one field per key. *)
Record TaxEstimate : Type := {
  est_regime : F;
  est_gross : F;
  est_std_deduction : F;
  est_deductions : F;
  est_taxable : F;
  est_base_tax : F;
  est_rebate : F;
  est_cess : F;
  est_total_tax : F;
  est_effective_rate : F
}.

Definition estimate (cfg : TaxConfig) (gross_annual_income : F)
    (is_salaried : bool) (regime : string)
    (deductions_old_80C deductions_old_80D : F) : result TaxEstimate :=
  let regime := strip (lower regime) in
  let regime :=
    if (regime =? "new") || (regime =? "old") then regime else "new" in
  let std_deduction :=
    if is_salaried && (regime =? "new") then std_deduction_new cfg
    else if is_salaried && (regime =? "old") then std_deduction_old cfg
    else lit 0 1 in
  if regime =? "new" then
    let taxable := pymax (lit 0 1) (gross_annual_income - std_deduction) in
    let base_tax := _slab_tax taxable (slabs_new cfg) in
    let rebate :=
      if taxable <=? rebate_threshold_new cfg then base_tax else lit 0 1 in
    let tax_after_rebate := pymax (lit 0 1) (base_tax - rebate) in
    let cess := tax_after_rebate * cess_rate cfg in
    let total := tax_after_rebate + cess in
    effective_rate <-
      (if truthy gross_annual_income then total / gross_annual_income
       else Ok (lit 0 1)) ;;
    Ok {| est_regime := lit 1 1;
          est_gross := gross_annual_income;
          est_std_deduction := std_deduction;
          est_deductions := lit 0 1;
          est_taxable := taxable;
          est_base_tax := base_tax;
          est_rebate := rebate;
          est_cess := cess;
          est_total_tax := total;
          est_effective_rate := effective_rate |}
  else
    let d80c := pymin (max_80C_old cfg) (pymax (lit 0 1) deductions_old_80C) in
    let d80d := pymin (max_80D_old cfg) (pymax (lit 0 1) deductions_old_80D) in
    let deductions :=
      d80c + d80d + (if is_salaried then std_deduction else lit 0 1) in
    let taxable := pymax (lit 0 1) (gross_annual_income - deductions) in
    let base_tax := _slab_tax taxable (slabs_old cfg) in
    let rebate :=
      if taxable <=? rebate_threshold_old cfg then base_tax else lit 0 1 in
    let tax_after_rebate := pymax (lit 0 1) (base_tax - rebate) in
    let cess := tax_after_rebate * cess_rate cfg in
    let total := tax_after_rebate + cess in
    effective_rate <-
      (if truthy gross_annual_income then total / gross_annual_income
       else Ok (lit 0 1)) ;;
    Ok {| est_regime := lit 0 1;
          est_gross := gross_annual_income;
          est_std_deduction :=
            if is_salaried then std_deduction else lit 0 1;
          est_deductions :=
            deductions - (if is_salaried then std_deduction else lit 0 1);
          est_taxable := taxable;
          est_base_tax := base_tax;
          est_rebate := rebate;
          est_cess := cess;
          est_total_tax := total;
          est_effective_rate := effective_rate |}.

End TaxEngine.

Arguments TaxSlab F : clear implicits.
Arguments TaxConfig F : clear implicits.
Arguments TaxEstimate F : clear implicits.

(** ** Planning calculators *)

Section Planning.

Context {F : Type} `{PyFloat F}.

Local Open Scope py_scope.

(** [n = int(round(years * 12))], the number of monthly periods. *)
Definition period_count (years : F) : result Z :=
  round_int (years * of_int 12).

Definition future_value_sip (monthly annual_return_pct years : F) : result F :=
  r <- annual_return_pct / lit 100 1 ;;
  r <- r / lit 12 1 ;;
  n <- period_count years ;;
  if r == of_int 0 then Ok (monthly * of_int n)
  else
    p <- (of_int 1 + r) ** n ;;
    q <- monthly * (p - of_int 1) / r ;;
    Ok (q * (of_int 1 + r)).

Definition required_sip (target annual_return_pct years : F) : result F :=
  r <- annual_return_pct / lit 100 1 ;;
  r <- r / lit 12 1 ;;
  n <- period_count years ;;
  if r == of_int 0 then target / of_int n
  else
    p <- (of_int 1 + r) ** n ;;
    q <- (p - of_int 1) / r ;;
    target / (q * (of_int 1 + r)).

Definition emi (principal annual_rate_pct years : F) : result F :=
  r <- annual_rate_pct / lit 100 1 ;;
  r <- r / lit 12 1 ;;
  n <- period_count years ;;
  if r == of_int 0 then principal / of_int n
  else
    p <- (of_int 1 + r) ** n ;;
    p' <- (of_int 1 + r) ** n ;;
    principal * r * p / (p' - of_int 1).

(** Returns the pair [(corpus, future_monthly)]. *)
Definition retirement_target (monthly_expense_today : F)
    (years_to_retire retired_years : Z) (inflation_pct swr_pct : F)
    : result (F * F) :=
  inf <- inflation_pct / lit 100 1 ;;
  growth <- (of_int 1 + inf) ** years_to_retire ;;
  let future_monthly := monthly_expense_today * growth in
  let annual_need := future_monthly * of_int 12 in
  corpus <- annual_need * of_int 100 / swr_pct ;;
  Ok (corpus, future_monthly).

Definition emergency_fund (monthly_expense : F) (months : Z) : F :=
  monthly_expense * of_int months.

End Planning.

(** ** Portfolio suggestion *)

Section Portfolio.

Context {F : Type} `{PyFloat F}.

Local Open Scope string_scope.
Local Open Scope py_scope.
Local Open Scope Z_scope.

(** The inner dictionaries all have the keys [equity], [debt], [gold], in
    this order. *)
Record Allocation : Type := {
  equity : F;
  debt : F;
  gold : F
}.

Definition RISK_ALLOCATION : list (string * Allocation) :=
  [ ("conservative",
      {| equity := lit 3 10; debt := lit 6 10; gold := lit 1 10 |});
    ("moderate",
      {| equity := lit 6 10; debt := lit 3 10; gold := lit 1 10 |});
    ("aggressive",
      {| equity := lit 8 10; debt := lit 15 100; gold := lit 5 100 |}) ].

(** [d.get(key)] *)
Fixpoint dict_get {V : Type} (d : list (string * V)) (key : string)
    : option V :=
  match d with
  | [] => None
  | (k, v) :: d' => if (k =? key)%string then Some v else dict_get d' key
  end.

(** [d[key]] *)
Definition getitem {V : Type} (d : list (string * V)) (key : string)
    : result V :=
  match dict_get d key with
  | Some v => Ok v
  | None => Raise KeyError
  end.

(** The base split: [RISK_ALLOCATION.get(risk, RISK_ALLOCATION["moderate"])]
    for the normalised [risk].  The source takes a [.copy()] of it, so the
    table itself is never written to. *)
Definition base_split (risk : string) : result Allocation :=
  let risk := strip (lower risk) in
  fallback <- getitem RISK_ALLOCATION "moderate" ;;
  Ok (match dict_get RISK_ALLOCATION risk with
      | Some b => b
      | None => fallback
      end).

(** [sum(base.values())] adds from the [int] 0, in the order of the keys.
    (An interpreter that sums floats with compensation can differ from this
    in the last bit of [s]; the weights rounded to two decimals do not.) *)
Definition suggest_allocation (risk : string) (horizon_years : Z)
    : result Allocation :=
  base <- base_split risk ;;
  let base :=
    if horizon_years >=? 10 then
      let e := clamp (equity base + lit 5 100)%py (lit 2 10) (lit 9 10) in
      let d :=
        clamp (lit 1 1 - e - gold base)%py (lit 5 100) (lit 75 100) in
      {| equity := e; debt := d; gold := gold base |}
    else if horizon_years <=? 3 then
      let e := clamp (equity base - lit 15 100)%py (lit 1 10) (lit 7 10) in
      let d :=
        clamp (lit 1 1 - e - gold base)%py (lit 2 10) (lit 85 100) in
      {| equity := e; debt := d; gold := gold base |}
    else base in
  let s := (of_int 0 + equity base + debt base + gold base)%py in
  e <- (equity base / s)%py ;;
  d <- (debt base / s)%py ;;
  g <- (gold base / s)%py ;;
  Ok {| equity := round_2 e; debt := round_2 d; gold := round_2 g |}.

End Portfolio.

Arguments Allocation F : clear implicits.

(** ** Notions the specification uses *)

Section SpecNotions.

Context {F : Type} `{PyFloat F}.

Local Open Scope py_scope.

(** A valid [SlabTable]: bounded slabs whose upper bounds increase
    strictly from [0], then one final slab without a bound; every rate in
    [[0, 1]]. *)
Definition rate_in_unit (s : TaxSlab F) : bool :=
  (lit 0 1 <=? rate s) && (rate s <=? lit 1 1).

Fixpoint valid_from (lower : F) (slabs : list (TaxSlab F)) : bool :=
  match slabs with
  | [] => false
  | s :: rest =>
      match up_to s, rest with
      | None, [] => rate_in_unit s
      | Some u, _ :: _ => (lower <? u) && rate_in_unit s && valid_from u rest
      | _, _ => false
      end
  end.

Definition valid_slab_table (slabs : list (TaxSlab F)) : bool :=
  valid_from (lit 0 1) slabs.

(** What monotonicity of the slab tax rests on: no rate is negative. *)
Definition rates_nonneg (slabs : list (TaxSlab F)) : bool :=
  forallb (fun s => lit 0 1 <=? rate s) slabs.

(** The three weights have exact values, none negative, and their sum is
    within [0.01] of [1]. *)
Definition weights_ok (a : Allocation F) : bool :=
  match exact (equity a), exact (debt a), exact (gold a) with
  | Some e, Some d, Some g =>
      Qle_bool 0 e && Qle_bool 0 d && Qle_bool 0 g
      && Qle_bool (Qabs (e + d + g - 1)) (1 # 100)
  | _, _, _ => false
  end.

(** The formula of the specification for the retirement corpus: the
    expense inflated over the horizon, times 12, divided by the withdrawal
    rate as a fraction. *)
Definition retirement_formula (monthly_expense_today : F)
    (years_to_retire : Z) (inflation_pct swr_pct : F) : result (F * F) :=
  i <- inflation_pct / lit 100 1 ;;
  growth <- (of_int 1 + i) ** years_to_retire ;;
  let inflated_monthly := monthly_expense_today * growth in
  swr <- swr_pct / lit 100 1 ;;
  corpus <- inflated_monthly * of_int 12 / swr ;;
  Ok (corpus, inflated_monthly).

End SpecNotions.

(** The horizon enters [suggest_allocation] through two comparisons only:
    one horizon stands for each of the three bands. *)
Definition horizon_band (h : Z) : Z :=
  if (h >=? 10)%Z then 10%Z else if (h <=? 3)%Z then 3%Z else 5%Z.

Definition risk_categories : list string :=
  [ "conservative"; "moderate"; "aggressive" ]%string.

(** Two outcomes over the rationals agree: the same exception, or pairs of
    equal numbers. *)
Definition same_outcome (a b : result (Q * Q)) : Prop :=
  match a, b with
  | Ok (x1, y1), Ok (x2, y2) => (x1 == x2 /\ y1 == y2)%Q
  | Raise e1, Raise e2 => e1 = e2
  | _, _ => False
  end.

(** One turn of the loop of [_slab_tax]: the tax after the slab. *)
Definition slab_step (taxable upper lower tax rate : Q) : Q :=
  if Qltb lower taxable then
    if Qltb (inject_Z 0) (pymin taxable upper - lower)
    then tax + (pymin taxable upper - lower) * rate else tax
  else tax.

(** The slab tax without the early exit: every slab of the table
    contributes [max(0, min(taxable, upper) - lower) * rate]. *)
Fixpoint slab_sum (taxable : Q) (slabs : list (TaxSlab Q)) (lower : Q) : Q :=
  match slabs with
  | [] => 0
  | s :: rest =>
      let upper := match up_to s with Some u => u | None => taxable end in
      pymax 0 (pymin taxable upper - lower) * rate s
      + slab_sum taxable rest upper
  end%Q.

(** Every rate of the table is at most [top]. *)
Definition rates_at_most (top : Q) (slabs : list (TaxSlab Q)) : bool :=
  forallb (fun s => Qle_bool (rate s) top) slabs.

(** The path that [estimate] takes, read off the regime string: the old
    regime for a string that normalises to [old], the new one for every
    other string. *)
Definition regime_is_old (regime : string) : bool :=
  (strip (lower regime) =? "old")%string.

Section EstimatePath.

Context {F : Type} `{PyFloat F}.

Local Open Scope py_scope.

(** All that is deducted from the gross income on this path. *)
Definition path_deductions (cfg : TaxConfig F) (is_salaried : bool)
    (regime : string) (c d : F) : F :=
  if regime_is_old regime then
    pymin (max_80C_old cfg) (pymax (lit 0 1) c)
    + pymin (max_80D_old cfg) (pymax (lit 0 1) d)
    + (if is_salaried then std_deduction_old cfg else lit 0 1)
  else (if is_salaried then std_deduction_new cfg else lit 0 1).

(** The total tax on a taxable income: slab tax, rebate below the
    threshold, cess on what is left. *)
Definition tax_on (cfg : TaxConfig F) (regime : string) (taxable : F) : F :=
  let slabs := if regime_is_old regime then slabs_old cfg else slabs_new cfg in
  let thr :=
    if regime_is_old regime then rebate_threshold_old cfg
    else rebate_threshold_new cfg in
  let base_tax := _slab_tax taxable slabs in
  let rebate := if taxable <=? thr then base_tax else lit 0 1 in
  let tax_after_rebate := pymax (lit 0 1) (base_tax - rebate) in
  tax_after_rebate + tax_after_rebate * cess_rate cfg.

End EstimatePath.

(** What [lstrip] returns is empty or starts with a character that is no
    space, and [rstrip] keeps such a start. *)
Definition starts_clean (s : string) : Prop :=
  match s with
  | EmptyString => True
  | String c _ => is_space c = false
  end.

(** ** The user profile *)

Section Profile.

Context {F : Type} `{PyFloat F}.

Local Open Scope py_scope.

Record UserProfile : Type := {
  name : string;
  age : option Z;
  monthly_income : option F;
  monthly_expenses : option F;
  emergency_months : Z;
  risk : string;
  city : option string;
  regime_preference : option string;
  created_at : string
}.

(** The property [savings_capacity]: [None] when the income or the
    expenses are not known. *)
Definition savings_capacity (p : UserProfile) : option F :=
  match monthly_income p, monthly_expenses p with
  | Some income, Some expenses => Some (pymax (lit 0 1) (income - expenses))
  | _, _ => None
  end.

End Profile.

Arguments UserProfile F : clear implicits.

(** ** What the handlers compute

    The handlers of [Chatbot] read their inputs, call the calculators and
    print.  What they compute from the inputs once read is given here,
    in the order of the source. *)

Section Handlers.

Context {F : Type} `{PyFloat F}.

Local Open Scope py_scope.

(** [cmd_emi]: the payment, the total interest and the total paid. *)
Definition emi_summary (principal rate years : F) : result (F * F * F) :=
  m <- emi principal rate years ;;
  n <- period_count years ;;
  let total := m * of_int n in
  let interest := total - principal in
  Ok (m, interest, total).

(** [cmd_retirement]: nothing is computed ([None]) unless the retirement
    age is above the age; otherwise the corpus, the monthly expense at
    retirement and the monthly investment.  The whole number of years is
    passed to [required_sip] as it is. *)
Definition retirement_plan (age retire_age : Z)
    (expense inflation swr rate : F) : result (option (F * F * F)) :=
  let years_to_retire := (retire_age - age)%Z in
  if (years_to_retire <=? 0)%Z then Ok None
  else
    target <- retirement_target expense years_to_retire 25 inflation swr ;;
    let corpus := fst target in
    let future_monthly := snd target in
    sip_amt <- required_sip corpus rate (of_int years_to_retire) ;;
    Ok (Some (corpus, future_monthly, sip_amt)).

(** [int(x)]: the exact value cut towards zero. *)
Definition int_of_float (x : F) : result Z :=
  match exact x with
  | Some q => Ok (if Qle_bool 0 q then Qfloor q else Qceiling q)
  | None => Raise (if x == x then OverflowError else ValueError)
  end.

(** [cmd_allocate]: the whole percentages printed, [int(v * 100)] for the
    three weights in the order of the keys. *)
Definition allocation_percents (risk : string) (horizon : Z)
    : result (Z * Z * Z) :=
  allocation <- suggest_allocation risk horizon ;;
  e <- int_of_float (equity allocation * of_int 100) ;;
  d <- int_of_float (debt allocation * of_int 100) ;;
  g <- int_of_float (gold allocation * of_int 100) ;;
  Ok (e, d, g).

End Handlers.

(** ** Month-by-month meaning of the annuity formulas *)

(** The balance of a loan after some months: every month the interest at
    the monthly rate [r] is added, then the payment is taken off. *)
Fixpoint loan_balance (principal r payment : Q) (months : nat) : Q :=
  match months with
  | O => principal
  | S k => (loan_balance principal r payment k * (1 + r) - payment)%Q
  end.

(** The value of a recurring deposit after some months: every month the
    deposit is made first, then the interest at the monthly rate [r] is
    added. *)
Fixpoint sip_balance (monthly r : Q) (months : nat) : Q :=
  match months with
  | O => 0%Q
  | S k => ((sip_balance monthly r k + monthly) * (1 + r))%Q
  end.

(** The monthly rate of an annual percentage. *)
Definition monthly_rate_of (annual : Q) : Q := (annual / 100 / 12)%Q.

(** The category that a risk string selects: its normal form when that is
    a key of the table, [moderate] otherwise. *)
Definition category_of (risk : string) : string :=
  let r := strip (lower risk) in
  if existsb (String.eqb r) risk_categories then r else "moderate"%string.

(** ** The dispatcher

    [Chatbot.handle_freeform] and the body of the loop of [Chatbot.run]
    choose a handler from the line typed.  The handlers themselves talk to
    the terminal; the choice is modelled, a handler by its name. *)

Inductive command : Type :=
| cmd_help
| cmd_profile
| cmd_emergency
| cmd_sip
| cmd_goal
| cmd_emi
| cmd_retirement
| cmd_allocate
| cmd_tax.

Fixpoint starts_with (needle hay : string) : bool :=
  match needle, hay with
  | EmptyString, _ => true
  | String _ _, EmptyString => false
  | String a needle', String b hay' =>
      Ascii.eqb a b && starts_with needle' hay'
  end.

(** [needle in hay], for strings. *)
Fixpoint contains (needle hay : string) : bool :=
  match hay with
  | EmptyString => starts_with needle hay
  | String _ rest => starts_with needle hay || contains needle rest
  end.

(** [handle_freeform]: [Some c] when the handler [c] is called and [True]
    returned, [None] for [False]. *)
Definition handle_freeform (text : string) : option command :=
  let t := lower text in
  if existsb (fun k => contains k t) ["help"; "menu"; "what can you do"]%string
  then Some cmd_help
  else if contains "tax" t then Some cmd_tax
  else if contains "emi" t then Some cmd_emi
  else if contains "retire" t then Some cmd_retirement
  else if contains "emergency" t then Some cmd_emergency
  else if contains "allocate" t || contains "allocation" t
  then Some cmd_allocate
  else if contains "sip" t || contains "s.i.p" t then Some cmd_sip
  else if contains "goal" t then Some cmd_goal
  else if contains "profile" t then Some cmd_profile
  else None.

(** [s.split()]: the words of [s], cut at runs of whitespace. *)
Fixpoint split_ws (s : string) : list string :=
  match s with
  | EmptyString => []
  | String c rest =>
      if is_space c then split_ws rest
      else
        match rest with
        | EmptyString => [String c EmptyString]
        | String c' _ =>
            if is_space c' then String c EmptyString :: split_ws rest
            else
              match split_ws rest with
              | w :: ws => String c w :: ws
              | [] => [String c EmptyString]
              end
        end
  end.

(** The table of handlers of [run]. *)
Definition handlers : list (string * command) :=
  [ ("help", cmd_help);
    ("profile", cmd_profile);
    ("emergency", cmd_emergency);
    ("sip", cmd_sip);
    ("goal", cmd_goal);
    ("emi", cmd_emi);
    ("retirement", cmd_retirement);
    ("allocate", cmd_allocate);
    ("tax", cmd_tax) ]%string.

(** What one turn of the loop of [run] does with the line read. *)
Inductive action : Type :=
| Skip                          (* an empty line: [continue] *)
| Quit                          (* save the profile and leave the loop *)
| Freeform (c : command)        (* [handle_freeform] called [c] *)
| Dispatch (c : command)        (* the table gave [c], called with the args *)
| NotUnderstood.                (* "I didn't catch that." *)

Definition run_step (line : string) : action :=
  let raw := strip line in
  if (raw =? "")%string then Skip
  else if existsb (String.eqb (lower raw)) ["quit"; "exit"; "q"]%string
  then Quit
  else
    match handle_freeform raw with
    | Some c => Freeform c
    | None =>
        let parts := split_ws raw in
        let cmd := lower (hd EmptyString parts) in
        match dict_get handlers cmd with
        | Some c => Dispatch c
        | None => NotUnderstood
        end
    end.

(** Every key of the table holds a keyword of [handle_freeform]. *)
Definition keyword_of (key : string) : string :=
  if (key =? "retirement")%string then "retire" else key.

(** ** Formatting an amount *)

(** The digits of a whole number [>= 0]. *)
Definition digits (z : Z) : string :=
  NilZero.string_of_uint (N.to_uint (Z.to_N z)).

Definition two_digits (z : Z) : string :=
  if (z <? 10)%Z then ("0" ++ digits z)%string else digits z.

(** The thousands separators of the format [,]: a comma before every
    group of three digits that is not the first. *)
Fixpoint commas3 (s : string) : string :=
  match s with
  | EmptyString => EmptyString
  | String c rest =>
      String c
        (if (0 <? String.length rest)%nat
            && (String.length rest mod 3 =? 0)%nat
         then String "," (commas3 rest) else commas3 rest)
  end.

(** [f"{q:,.2f}"] for [q >= 0]: [q] rounded to hundredths, ties to even. *)
Definition format_comma_2f (q : Q) : string :=
  let k := round_half_even (q * 100)%Q in
  (commas3 (digits (k / 100)) ++ "." ++ two_digits (k mod 100))%string.

(** [s.split(sep)] for a separator of one character. *)
Fixpoint split_on (sep : ascii) (s : string) : list string :=
  match s with
  | EmptyString => [EmptyString]
  | String c rest =>
      if Ascii.eqb c sep then EmptyString :: split_on sep rest
      else
        match split_on sep rest with
        | w :: ws => String c w :: ws
        | [] => [String c EmptyString]
        end
  end.

(** [s.replace(c, '')] for one character. *)
Fixpoint remove_char (c : ascii) (s : string) : string :=
  match s with
  | EmptyString => EmptyString
  | String a rest =>
      if Ascii.eqb a c then remove_char c rest
      else String a (remove_char c rest)
  end.

(** The slices [s[:-k]] and [s[-k:]], for [k > 0]. *)
Definition drop_last (k : nat) (s : string) : string :=
  substring 0 (String.length s - k) s.

Definition take_last (k : nat) (s : string) : string :=
  substring (String.length s - k) k s.

(** The loop [while head: head_groups.insert(0, head[-2:]); head =
    head[:-2]].  Every turn shortens [head], so [length head] turns are
    enough. *)
Fixpoint head_groups_loop (fuel : nat) (head : string)
    (head_groups : list string) : list string :=
  match fuel with
  | O => head_groups
  | S fuel' =>
      match head with
      | EmptyString => head_groups
      | String _ _ =>
          head_groups_loop fuel' (drop_last 2 head)
            (take_last 2 head :: head_groups)
      end
  end.

(** The groups of the Indian grouping of a string of more than three
    digits: groups of two, then the last three. *)
Definition indian_groups (whole : string) : list string :=
  let head := drop_last 3 whole in
  let tail := take_last 3 whole in
  head_groups_loop (String.length head) head [] ++ [tail].

Definition indian_grouping (whole : string) : string :=
  if (3 <? String.length whole)%nat
  then String.concat "," (indian_groups whole)
  else whole.

(** The currency sign as the source file has it, seven bytes. *)
Definition rupee : string :=
  string_of_list_ascii
    (map ascii_of_nat [195; 162; 226; 128; 154; 194; 185]%nat).

Section Currency.

Context {F : Type} `{PyFloat F}.

Local Open Scope string_scope.

(** [currency(n)].  A float that is not finite is printed without a
    decimal point, and [parts[1]] then raises [IndexError]: [None]. *)
Definition currency (n : F) : option string :=
  let neg := fltb n (of_int 0) in
  match exact n with
  | None => None
  | Some q =>
      let s := format_comma_2f (Qabs q) in
      let parts := split_on "." s in
      let whole := remove_char "," (nth 0 parts "") in
      let whole := indian_grouping whole in
      match nth_error parts 1 with
      | Some fraction =>
          Some ((if neg then "-" ++ rupee else rupee)
                ++ whole ++ "." ++ fraction)
      | None => None
      end
  end.

End Currency.

(** Strings of decimal digits, and strings free of a character. *)
Definition is_digit (c : ascii) : bool :=
  let n := nat_of_ascii c in (48 <=? n)%nat && (n <=? 57)%nat.

Fixpoint only_digits (s : string) : bool :=
  match s with
  | EmptyString => true
  | String c rest => is_digit c && only_digits rest
  end.

Fixpoint has_char (c : ascii) (s : string) : bool :=
  match s with
  | EmptyString => false
  | String a rest => Ascii.eqb a c || has_char c rest
  end.

Definition all_pairs (groups : list string) : bool :=
  forallb (fun g => (String.length g =? 2)%nat) groups.

(** The shape of the groups: one or two digits, then pairs, then the last
    three. *)
Fixpoint pairs_then_three (groups : list string) : bool :=
  match groups with
  | [] => false
  | [last] => (String.length last =? 3)%nat
  | g :: rest => (String.length g =? 2)%nat && pairs_then_three rest
  end.

Definition indian_shape (groups : list string) : bool :=
  match groups with
  | g :: (_ :: _) as rest =>
      ((String.length g =? 1)%nat || (String.length g =? 2)%nat)
      && pairs_then_three rest
  | _ => false
  end.

(** * Verification *)

Unset Implicit Arguments.

Local Open Scope string_scope.
Local Open Scope Q_scope.

(** ** Comparisons over the rationals *)

Lemma Qltb_lt (x y : Q) : Qltb x y = true <-> (x < y)%Q.
Proof.
  unfold Qltb. rewrite negb_true_iff. split; intro E.
  - apply Qnot_le_lt. intro L. apply Qle_bool_iff in L. congruence.
  - destruct (Qle_bool y x) eqn:B; [|reflexivity].
    apply Qle_bool_iff in B. exfalso. exact (Qlt_not_le _ _ E B).
Qed.

Lemma Qltb_ge (x y : Q) : Qltb x y = false <-> (y <= x)%Q.
Proof.
  unfold Qltb. rewrite negb_false_iff. apply Qle_bool_iff.
Qed.

Lemma Qle_bool_gt (x y : Q) : Qle_bool x y = false <-> (y < x)%Q.
Proof.
  rewrite <- Qltb_lt. unfold Qltb. rewrite negb_true_iff. reflexivity.
Qed.

Lemma Qeq_bool_ne (x y : Q) : Qeq_bool x y = false <-> ~ (x == y)%Q.
Proof.
  split; [apply Qeq_bool_neq|].
  intro N. destruct (Qeq_bool x y) eqn:B; [|reflexivity].
  apply Qeq_bool_eq in B. contradiction.
Qed.

(** Case analysis on the next test of the goal, the outcome recorded as an
    (in)equation between rationals. *)
Ltac qtest :=
  match goal with
  | |- context [Qltb ?a ?b] =>
      let E := fresh "T" in
      destruct (Qltb a b) eqn:E;
      [apply Qltb_lt in E | apply Qltb_ge in E]
  | |- context [Qle_bool ?a ?b] =>
      let E := fresh "T" in
      destruct (Qle_bool a b) eqn:E;
      [apply Qle_bool_iff in E | apply Qle_bool_gt in E]
  | |- context [Qeq_bool ?a ?b] =>
      let E := fresh "T" in
      destruct (Qeq_bool a b) eqn:E;
      [apply Qeq_bool_eq in E | apply Qeq_bool_ne in E]
  end.

(** ** [estimate] never raises

    Its one division is guarded by the truth value of the divisor, which is
    the test that [/] itself makes. *)

Lemma guarded_division_returns {F : Type} `{PyFloat F} (total gross : F) :
  (if truthy gross then truediv total gross else Ok (lit 0 1))
  = Ok (if feqb gross (of_int 0) then lit 0 1 else fquot total gross).
Proof.
  unfold truthy, truediv. destruct (feqb gross (of_int 0)); reflexivity.
Qed.

Lemma estimate_returns {F : Type} `{PyFloat F} (cfg : TaxConfig F)
    (gross : F) (is_salaried : bool) (regime : string) (c d : F) :
  exists res, estimate cfg gross is_salaried regime c d = Ok res
    /\ est_effective_rate res
       = if feqb gross (of_int 0) then lit 0 1
         else fquot (est_total_tax res) gross.
Proof.
  unfold estimate. cbv zeta.
  match goal with |- context [if String.eqb ?r "new" then _ else _] =>
    destruct (String.eqb r "new") end;
  rewrite guarded_division_returns; cbn [bind];
  eexists; (split; [reflexivity|]); reflexivity.
Qed.

(** ** Comparisons on binary64 *)

Lemma f64_pos_nonzero (x : float) :
  PrimFloat.ltb PrimFloat.zero x = true -> PrimFloat.eqb x PrimFloat.zero = false.
Proof.
  rewrite ltb_spec, eqb_spec.
  replace (Prim2SF PrimFloat.zero) with (S754_zero false) by reflexivity.
  destruct (Prim2SF x) as [s|s| |s m e]; cbn; try discriminate; try reflexivity.
  all: destruct s; cbn; try discriminate; reflexivity.
Qed.

(** ** The worked examples of the tax estimator *)

(** C1: under the new regime, salaried, with a gross income of 700000,
    [estimate] returns a taxable income of 650000 (the gross less the 50000
    standard deduction); the taxable income is at or below the rebate
    threshold of 700000, the rebate is the whole base slab tax, and the
    total tax is 0.  The two deduction inputs are ignored.  Stated on
    binary64 and on the rationals. *)
Theorem estimate_new_salaried_700000 :
  (forall c d : float,
   exists res : TaxEstimate float,
     estimate default_config (lit 700000 1) true "new" c d = Ok res
     /\ est_taxable res = fsub (lit 700000 1) (lit 50000 1)
     /\ est_taxable res = lit 650000 1
     /\ fleb (est_taxable res) (rebate_threshold_new default_config) = true
     /\ est_base_tax res = _slab_tax (lit 650000 1) (slabs_new default_config)
     /\ est_rebate res = est_base_tax res
     /\ est_total_tax res = lit 0 1)
  /\
  (forall c d : Q,
   exists res : TaxEstimate Q,
     estimate default_config (lit 700000 1) true "new" c d = Ok res
     /\ est_taxable res = fsub (lit 700000 1) (lit 50000 1)
     /\ (est_taxable res == 650000)%Q
     /\ fleb (est_taxable res) (rebate_threshold_new default_config) = true
     /\ est_base_tax res = _slab_tax (est_taxable res) (slabs_new default_config)
     /\ est_rebate res = est_base_tax res
     /\ (est_total_tax res == 0)%Q).
Proof.
  split; intros c d; eexists; (split; [vm_compute; reflexivity|]);
    cbn [est_taxable est_base_tax est_rebate est_total_tax];
    repeat split; vm_compute; reflexivity.
Qed.

(** C5: under the old regime, salaried, with a gross income of 1000000,
    80C = 200000 and 80D = 0, [estimate] returns (it does not reject the
    value above the cap): 80C is cut to the cap of 150000, the deductions
    are 150000 + 0 + 50000 = 200000 and the taxable income is 800000.
    The record holds the itemized part and the standard deduction apart.
    Stated on binary64 and on the rationals. *)
Theorem estimate_old_80C_over_cap :
  (exists res : TaxEstimate float,
     estimate default_config (lit 1000000 1) true "old"
       (lit 200000 1) (lit 0 1) = Ok res
     /\ pymin (max_80C_old default_config) (pymax (lit 0 1) (lit 200000 1))
        = lit 150000 1
     /\ est_deductions res = lit 150000 1
     /\ est_std_deduction res = lit 50000 1
     /\ fadd (est_deductions res) (est_std_deduction res) = lit 200000 1
     /\ est_taxable res = lit 800000 1)
  /\
  (exists res : TaxEstimate Q,
     estimate default_config (lit 1000000 1) true "old"
       (lit 200000 1) (lit 0 1) = Ok res
     /\ pymin (max_80C_old default_config) (pymax (lit 0 1) (lit 200000 1))
        = lit 150000 1
     /\ est_deductions res == 150000
     /\ est_std_deduction res == 50000
     /\ est_deductions res + est_std_deduction res == 200000
     /\ est_taxable res == 800000).
Proof.
  split; eexists; (split; [vm_compute; reflexivity|]);
    cbn [est_taxable est_deductions est_std_deduction];
    repeat split; vm_compute; reflexivity.
Qed.

(** C9: [estimate] returns for every input; when the gross income is 0
    (in either regime) the effective rate is exactly 0, and when the gross
    income is positive it is the total tax divided by the gross income.
    Stated on the rationals and on binary64. *)
Theorem effective_rate_guard :
  (forall (cfg : TaxConfig Q) (gross : Q) (is_salaried : bool)
          (regime : string) (c d : Q),
   exists res : TaxEstimate Q,
     estimate cfg gross is_salaried regime c d = Ok res
     /\ (gross == 0 -> est_effective_rate res = lit 0 1)
     /\ (0 < gross -> est_effective_rate res = est_total_tax res / gross))
  /\
  (forall (cfg : TaxConfig float) (gross : float) (is_salaried : bool)
          (regime : string) (c d : float),
   exists res : TaxEstimate float,
     estimate cfg gross is_salaried regime c d = Ok res
     /\ (gross = PrimFloat.zero -> est_effective_rate res = PrimFloat.zero)
     /\ (PrimFloat.ltb PrimFloat.zero gross = true ->
         est_effective_rate res = PrimFloat.div (est_total_tax res) gross)).
Proof.
  split; intros cfg gross is_salaried regime c d;
    destruct (estimate_returns cfg gross is_salaried regime c d)
      as (res & E & R);
    exists res; (split; [exact E|]); rewrite R; cbn [feqb of_int fquot lit Exact Binary64].
  - split; intro G.
    + apply Qeq_eq_bool in G. unfold inject_Z. rewrite G. reflexivity.
    + assert (N : Qeq_bool gross (inject_Z 0) = false).
      { apply Qeq_bool_ne. intro Z. rewrite Z in G. discriminate G. }
      rewrite N. reflexivity.
  - split; intro G.
    + subst gross. reflexivity.
    + replace (f64_of_Z 0) with PrimFloat.zero by reflexivity.
      rewrite (f64_pos_nonzero _ G). reflexivity.
Qed.

Lemma effective_rate_guard_witness :
  (lit 0 1 == 0 /\ 0 < lit 1000000 1)
  /\ (exists res : TaxEstimate Q,
        estimate default_config (lit 0 1) true "new" (lit 0 1) (lit 0 1)
        = Ok res
        /\ est_effective_rate res = lit 0 1)
  /\ (exists res : TaxEstimate Q,
        estimate default_config (lit 1000000 1) true "old"
          (lit 200000 1) (lit 0 1) = Ok res
        /\ est_effective_rate res = est_total_tax res / lit 1000000 1).
Proof.
  assert (Z : lit 0 1 == 0) by reflexivity.
  assert (P : 0 < lit 1000000 1) by reflexivity.
  split; [split; [exact Z | exact P]|]. split.
  - destruct (proj1 effective_rate_guard default_config (lit 0 1) true "new"
                (lit 0 1) (lit 0 1)) as (res & E & R0 & _).
    exists res. split; [exact E | exact (R0 Z)].
  - destruct (proj1 effective_rate_guard default_config (lit 1000000 1) true
                "old" (lit 200000 1) (lit 0 1)) as (res & E & _ & R1).
    exists res. split; [exact E | exact (R1 P)].
Defined.

(** ** Slab tax over the rationals *)

Lemma slab_loop_cons (taxable : Q) (slab : TaxSlab Q) (rest : list (TaxSlab Q))
    (tax lower : Q) :
  slab_loop taxable (slab :: rest) tax lower =
  let upper := match up_to slab with Some u => u | None => taxable end in
  if Qle_bool taxable upper
  then slab_step taxable upper lower tax (rate slab)
  else slab_loop taxable rest
         (slab_step taxable upper lower tax (rate slab)) upper.
Proof. reflexivity. Qed.

Lemma pymin_le (a b u : Q) : a <= b -> pymin a u <= pymin b u.
Proof.
  intro L. unfold pymin. cbn [fltb Exact]. repeat qtest; lra.
Qed.

Lemma slab_step_ge (taxable upper lower tax rate : Q) :
  0 <= rate -> tax <= slab_step taxable upper lower tax rate.
Proof.
  intro R. unfold slab_step, inject_Z. repeat qtest; try lra.
  assert (0 <= (pymin taxable upper - lower) * rate).
  { apply Qmult_le_0_compat; lra. }
  lra.
Qed.

Lemma slab_step_mono (a b upper lower ta tb rate : Q) :
  0 <= rate -> a <= b -> ta <= tb ->
  slab_step a upper lower ta rate <= slab_step b upper lower tb rate.
Proof.
  intros R L T.
  pose proof (pymin_le a b upper L) as M.
  assert (P : (pymin a upper - lower) * rate
              <= (pymin b upper - lower) * rate).
  { apply Qmult_le_compat_r; lra. }
  assert (0 <= rate -> 0 <= pymin b upper - lower ->
          0 <= (pymin b upper - lower) * rate) as Pb.
  { intros. apply Qmult_le_0_compat; lra. }
  unfold slab_step, inject_Z.
  repeat qtest; try lra.
  all: specialize (Pb R); lra.
Qed.

(** The final slab: its upper edge is the income itself. *)
Lemma slab_step_mono_open (a b lower ta tb rate : Q) :
  0 <= rate -> a <= b -> ta <= tb ->
  slab_step a a lower ta rate <= slab_step b b lower tb rate.
Proof.
  intros R L T.
  assert (Ea : pymin a a = a).
  { unfold pymin. cbn [fltb Exact]. qtest; reflexivity. }
  assert (Eb : pymin b b = b).
  { unfold pymin. cbn [fltb Exact]. qtest; reflexivity. }
  assert (P : (a - lower) * rate <= (b - lower) * rate).
  { apply Qmult_le_compat_r; lra. }
  unfold slab_step, inject_Z. rewrite Ea, Eb.
  repeat qtest; try lra.
  all: assert (0 <= (b - lower) * rate) by (apply Qmult_le_0_compat; lra); lra.
Qed.

Lemma slab_loop_ge (taxable : Q) (slabs : list (TaxSlab Q)) :
  rates_nonneg slabs = true ->
  forall tax lower, tax <= slab_loop taxable slabs tax lower.
Proof.
  induction slabs as [|slab rest IH]; intros N tax lower.
  - cbn. lra.
  - cbn [rates_nonneg forallb] in N. apply andb_true_iff in N.
    destruct N as [R N]. apply Qle_bool_iff in R. unfold lit, Exact in R.
    rewrite slab_loop_cons. cbv zeta.
    set (upper := match up_to slab with Some u => u | None => taxable end).
    pose proof (slab_step_ge taxable upper lower tax (rate slab)) as S.
    destruct (Qle_bool taxable upper).
    + apply S. exact R.
    + eapply Qle_trans; [apply S; exact R|]. apply IH. exact N.
Qed.

Lemma slab_loop_mono (slabs : list (TaxSlab Q)) :
  rates_nonneg slabs = true ->
  forall a b ta tb lower, a <= b -> ta <= tb ->
    slab_loop a slabs ta lower <= slab_loop b slabs tb lower.
Proof.
  induction slabs as [|slab rest IH]; intros N a b ta tb lower L T.
  - cbn. exact T.
  - cbn [rates_nonneg forallb] in N. apply andb_true_iff in N.
    destruct N as [R N]. apply Qle_bool_iff in R. unfold lit, Exact in R.
    rewrite !slab_loop_cons. cbv zeta.
    destruct (up_to slab) as [u|].
    + pose proof (slab_step_mono a b u lower ta tb (rate slab) R L T) as S.
      destruct (Qle_bool a u) eqn:Ba;
        [apply Qle_bool_iff in Ba | apply Qle_bool_gt in Ba];
      destruct (Qle_bool b u) eqn:Bb;
        [apply Qle_bool_iff in Bb | apply Qle_bool_gt in Bb
        | apply Qle_bool_iff in Bb | apply Qle_bool_gt in Bb].
      * exact S.
      * eapply Qle_trans; [exact S|]. apply slab_loop_ge. exact N.
      * lra.
      * apply IH; assumption.
    + rewrite !(proj2 (Qle_bool_iff _ _) (Qle_refl _)).
      apply slab_step_mono_open; assumption.
Qed.

Lemma valid_from_rates_nonneg (slabs : list (TaxSlab Q)) :
  forall lower, valid_from lower slabs = true -> rates_nonneg slabs = true.
Proof.
  induction slabs as [|s rest IH]; intros lower V; [reflexivity|].
  cbn [valid_from] in V. cbn [rates_nonneg forallb].
  destruct (up_to s) as [u|]; destruct rest as [|s' rest']; try discriminate.
  - apply andb_true_iff in V. destruct V as [V V2].
    apply andb_true_iff in V. destruct V as [_ V1].
    unfold rate_in_unit in V1. apply andb_true_iff in V1.
    destruct V1 as [V1 _]. rewrite V1. cbn [andb].
    exact (IH u V2).
  - unfold rate_in_unit in V. apply andb_true_iff in V.
    destruct V as [V1 _]. rewrite V1. reflexivity.
Qed.

(** C4: for a valid slab table and non-negative taxable incomes
    [a <= b], the slab tax of [a] is at most the slab tax of [b]. *)
Theorem slab_tax_monotone (slabs : list (TaxSlab Q)) (a b : Q) :
  valid_slab_table slabs = true -> 0 <= a -> a <= b ->
  _slab_tax a slabs <= _slab_tax b slabs.
Proof.
  intros V _ L. unfold _slab_tax.
  apply slab_loop_mono; [|exact L|apply Qle_refl].
  exact (valid_from_rates_nonneg slabs _ V).
Qed.

Lemma slab_tax_monotone_witness :
  valid_slab_table (slabs_new (default_config (F := Q))) = true
  /\ _slab_tax (lit 650000 1) (slabs_new default_config)
     <= _slab_tax (lit 950000 1) (slabs_new default_config).
Proof.
  split; [reflexivity|].
  apply slab_tax_monotone; [reflexivity| |]; unfold lit, Exact, Qle; simpl; lia.
Defined.

(** ** Inputs that the engine does not validate *)

Lemma pymax_zero_neg (x : Q) : x < 0 -> pymax (lit 0 1) x = lit 0 1.
Proof.
  intro N. unfold pymax. cbn [fltb lit Exact]. qtest; [lra | reflexivity].
Qed.

Lemma pymax_zero_nonneg (x : Q) : 0 <= pymax (lit 0 1) x.
Proof.
  unfold pymax. cbn [fltb lit Exact]. qtest; lra.
Qed.

Lemma pymin_nonneg (cap x : Q) : 0 <= cap -> 0 <= x -> 0 <= pymin cap x.
Proof.
  intros C X. unfold pymin. cbn [fltb Exact]. qtest; assumption.
Qed.

Lemma estimate_80C_negative (cfg : TaxConfig Q) (gross : Q)
    (is_salaried : bool) (regime : string) (c d : Q) :
  c < 0 ->
  estimate cfg gross is_salaried regime c d
  = estimate cfg gross is_salaried regime (lit 0 1) d.
Proof.
  intro N. unfold estimate.
  rewrite (pymax_zero_neg c N).
  replace (pymax (lit 0 1) (lit 0 1)) with (lit (F := Q) 0 1) by reflexivity.
  reflexivity.
Qed.

Lemma estimate_80D_negative (cfg : TaxConfig Q) (gross : Q)
    (is_salaried : bool) (regime : string) (c d : Q) :
  d < 0 ->
  estimate cfg gross is_salaried regime c d
  = estimate cfg gross is_salaried regime c (lit 0 1).
Proof.
  intro N. unfold estimate.
  rewrite (pymax_zero_neg d N).
  replace (pymax (lit 0 1) (lit 0 1)) with (lit (F := Q) 0 1) by reflexivity.
  reflexivity.
Qed.

(** The regime after normalisation is one of the two. *)
Lemma regime_cases (regime : string) :
  let r := strip (lower regime) in
  (if (r =? "new")%string || (r =? "old")%string then r else "new") = "new"
  \/ (if (r =? "new")%string || (r =? "old")%string then r else "new") = "old".
Proof.
  cbv zeta.
  destruct (String.eqb_spec (strip (lower regime)) "new") as [->|Nn];
    [left; reflexivity|].
  destruct (String.eqb_spec (strip (lower regime)) "old") as [->|No];
    [right; reflexivity | left; reflexivity].
Qed.

Lemma estimate_negative_gross (gross : Q) (is_salaried : bool)
    (regime : string) (c d : Q) (res : TaxEstimate Q) :
  gross < 0 ->
  estimate default_config gross is_salaried regime c d = Ok res ->
  est_taxable res = lit 0 1 /\ est_total_tax res == 0.
Proof.
  intros N. unfold estimate. cbv zeta.
  rewrite !guarded_division_returns. cbn [bind].
  assert (Dc : 0 <= pymin (max_80C_old default_config) (pymax (lit 0 1) c)).
  { apply pymin_nonneg; [cbn; lra | apply pymax_zero_nonneg]. }
  assert (Dd : 0 <= pymin (max_80D_old default_config) (pymax (lit 0 1) d)).
  { apply pymin_nonneg; [cbn; lra | apply pymax_zero_nonneg]. }
  set (dc := pymin (max_80C_old default_config) (pymax (lit 0 1) c)) in *.
  set (dd := pymin (max_80D_old default_config) (pymax (lit 0 1) d)) in *.
  destruct (regime_cases regime) as [R|R]; cbv zeta in R; rewrite !R;
    destruct is_salaried; cbn [String.eqb Ascii.eqb Bool.eqb andb];
    cbn [fsub fadd std_deduction_new std_deduction_old default_config lit Exact];
    intro E; injection E as <-; cbn [est_taxable est_total_tax];
    match goal with
    | |- context [pymax (0 # 1) ?t] =>
        assert (T : pymax (lit 0 1) t = lit 0 1)
          by (apply pymax_zero_neg; first [lra | cbn; lra]);
        cbn [lit Exact] in T; rewrite !T
    end;
    (split; [reflexivity | vm_compute; reflexivity]).
Qed.

(** C6, as the code has it: [estimate] validates nothing.  For every
    gross income and every 80C and 80D value, negative ones included, it
    returns an estimate; a negative 80C or 80D counts as 0, and with a
    negative gross income the taxable income is 0 and so is the total
    tax. *)
Theorem estimate_coerces_negative_inputs (gross : Q) (is_salaried : bool)
    (regime : string) (c d : Q) :
  exists res : TaxEstimate Q,
    estimate default_config gross is_salaried regime c d = Ok res
    /\ (c < 0 ->
        estimate default_config gross is_salaried regime c d
        = estimate default_config gross is_salaried regime (lit 0 1) d)
    /\ (d < 0 ->
        estimate default_config gross is_salaried regime c d
        = estimate default_config gross is_salaried regime c (lit 0 1))
    /\ (gross < 0 -> est_taxable res = lit 0 1 /\ est_total_tax res == 0).
Proof.
  destruct (estimate_returns default_config gross is_salaried regime c d)
    as (res & E & _).
  exists res. split; [exact E|]. split; [|split].
  - apply estimate_80C_negative.
  - apply estimate_80D_negative.
  - intro N. exact (estimate_negative_gross _ _ _ _ _ _ N E).
Qed.

Lemma estimate_coerces_negative_inputs_witness :
  (lit (-5000) 1 < 0 /\ lit (-100000) 1 < 0)
  /\ exists res : TaxEstimate Q,
       estimate default_config (lit (-100000) 1) true "old"
         (lit (-5000) 1) (lit 0 1) = Ok res
       /\ estimate (F := Q) default_config (lit (-100000) 1) true "old"
            (lit (-5000) 1) (lit 0 1)
          = estimate default_config (lit (-100000) 1) true "old"
              (lit 0 1) (lit 0 1)
       /\ est_taxable res = lit 0 1
       /\ est_total_tax res == 0.
Proof.
  assert (C : lit (-5000) 1 < 0) by reflexivity.
  assert (G : lit (-100000) 1 < 0) by reflexivity.
  split; [split; [exact C | exact G]|].
  destruct (estimate_coerces_negative_inputs (lit (-100000) 1) true "old"
              (lit (-5000) 1) (lit 0 1)) as (res & E & Hc & _ & Hg).
  exists res. split; [exact E|]. split; [exact (Hc C)|]. exact (Hg G).
Defined.

(** C6, as the claim has it, fails: a negative gross income and a negative
    80C are both accepted on binary64.  The estimate comes back, with the
    taxable income at 0 in the first case and, in the second, equal to the
    estimate for 80C = 0. *)
Lemma estimate_reports_no_validation_failure :
  (exists res : TaxEstimate float,
     estimate default_config (lit (-100000) 1) true "new" (lit 0 1) (lit 0 1)
     = Ok res
     /\ est_taxable res = lit 0 1 /\ est_total_tax res = lit 0 1)
  /\ returns (estimate (F := float) default_config (lit 1000000 1) true "old"
                (lit (-5000) 1) (lit 0 1)) = true
  /\ estimate (F := float) default_config (lit 1000000 1) true "old"
       (lit (-5000) 1) (lit 0 1)
     = estimate default_config (lit 1000000 1) true "old" (lit 0 1) (lit 0 1).
Proof.
  split; [|split].
  - eexists. split; [vm_compute; reflexivity|].
    split; vm_compute; reflexivity.
  - vm_compute. reflexivity.
  - vm_compute. reflexivity.
Qed.

(** ** The annuity functions *)

(** The monthly rate [r = annual / 100.0 / 12.0]: neither division can
    raise. *)
Lemma monthly_rate {B : Type} (annual : Q) (k : Q -> result B) :
  bind (truediv annual (lit 100 1))
    (fun r => bind (truediv r (lit 12 1)) k)
  = k (annual / (100 # 1) / (12 # 1)).
Proof. reflexivity. Qed.

Lemma truediv_zero (x y : Q) : y == 0 -> truediv x y = Raise ZeroDivisionError.
Proof.
  intro Z. unfold truediv. cbn [feqb of_int Exact].
  rewrite (Qeq_eq_bool y (inject_Z 0) Z). reflexivity.
Qed.

Lemma truediv_nonzero (x y : Q) : ~ y == 0 -> truediv x y = Ok (x / y).
Proof.
  intro N. unfold truediv. cbn [feqb of_int fquot Exact].
  rewrite (proj2 (Qeq_bool_ne y (inject_Z 0)) N). reflexivity.
Qed.

(** C2, as the code has it: no annuity function checks the period count.
    When [years] rounds to zero months, [future_value_sip] returns 0, and
    [required_sip] and [emi] stop on the division by zero of the
    arithmetic.  When [years] rounds to a negative number of months and the
    rate is zero, all three return a number. *)
Theorem annuity_period_count_unchecked (x annual years : Q) (n : Z) :
  period_count years = Ok n ->
  ((n = 0)%Z ->
     (exists v, future_value_sip x annual years = Ok v /\ v == 0)
     /\ required_sip x annual years = Raise ZeroDivisionError
     /\ emi x annual years = Raise ZeroDivisionError)
  /\ ((n < 0)%Z -> annual == 0 ->
     future_value_sip x annual years = Ok (x * inject_Z n)
     /\ required_sip x annual years = Ok (x / inject_Z n)
     /\ emi x annual years = Ok (x / inject_Z n)).
Proof.
  intro P. unfold future_value_sip, required_sip, emi.
  rewrite !monthly_rate, P. cbn [bind].
  set (r := annual / (100 # 1) / (12 # 1)).
  cbn [feqb of_int fadd fsub fmul fpow Exact].
  split.
  - intros ->. cbn [Qpow Z.ltb Z.compare andb Qpower bind].
    destruct (Qeq_bool r (inject_Z 0)) eqn:R.
    + split; [|split].
      * eexists. split; [reflexivity|]. unfold inject_Z. ring.
      * apply truediv_zero. reflexivity.
      * apply truediv_zero. reflexivity.
    + apply Qeq_bool_ne in R. unfold inject_Z in R.
      rewrite !(truediv_nonzero _ r R). cbn [bind].
      split; [|split].
      * eexists. split; [reflexivity|]. unfold inject_Z. field. exact R.
      * apply truediv_zero. unfold inject_Z. field. exact R.
      * apply truediv_zero. reflexivity.
  - intros N A.
    assert (R : Qeq_bool r (inject_Z 0) = true).
    { apply Qeq_eq_bool. unfold r, inject_Z. rewrite A. reflexivity. }
    rewrite R.
    assert (Nz : ~ inject_Z n == 0).
    { unfold inject_Z, Qeq. simpl. lia. }
    rewrite !(truediv_nonzero _ _ Nz). repeat split.
Qed.

Lemma annuity_period_count_unchecked_witness :
  (period_count (F := Q) (lit 0 1) = Ok 0%Z
   /\ (exists v : Q,
         future_value_sip (lit 1000 1) (lit 12 1) (lit 0 1) = Ok v /\ v == 0)
   /\ required_sip (F := Q) (lit 1000 1) (lit 12 1) (lit 0 1)
      = Raise ZeroDivisionError
   /\ emi (F := Q) (lit 1000 1) (lit 12 1) (lit 0 1)
      = Raise ZeroDivisionError)
  /\ (period_count (F := Q) (lit (-1) 1) = Ok (-12)%Z
      /\ future_value_sip (F := Q) (lit 1200 1) (lit 0 1) (lit (-1) 1)
         = Ok (lit 1200 1 * inject_Z (-12))
      /\ required_sip (F := Q) (lit 1200 1) (lit 0 1) (lit (-1) 1)
         = Ok (lit 1200 1 / inject_Z (-12))
      /\ emi (F := Q) (lit 1200 1) (lit 0 1) (lit (-1) 1)
         = Ok (lit 1200 1 / inject_Z (-12))).
Proof.
  assert (P0 : period_count (F := Q) (lit 0 1) = Ok 0%Z) by reflexivity.
  assert (P1 : period_count (F := Q) (lit (-1) 1) = Ok (-12)%Z)
    by reflexivity.
  split; (split; [assumption|]).
  - exact (proj1 (annuity_period_count_unchecked
                    (lit 1000 1) (lit 12 1) (lit 0 1) 0%Z P0) eq_refl).
  - apply (proj2 (annuity_period_count_unchecked
                    (lit 1200 1) (lit 0 1) (lit (-1) 1) (-12)%Z P1));
      reflexivity.
Defined.

(** C2, as the claim has it, fails on binary64: with [years = 0] the
    period count is 0 and [future_value_sip] returns [0.0], at a non-zero
    and at a zero rate; with [years = -1] the period count is -12 and, at
    a zero rate, [required_sip] and [emi] return [-100.0]. *)
Lemma annuity_accepts_non_positive_period_count :
  period_count (F := float) (lit 0 1) = Ok 0%Z
  /\ future_value_sip (F := float) (lit 1000 1) (lit 12 1) (lit 0 1)
     = Ok (lit 0 1)
  /\ future_value_sip (F := float) (lit 1000 1) (lit 0 1) (lit 0 1)
     = Ok (lit 0 1)
  /\ period_count (F := float) (lit (-1) 1) = Ok (-12)%Z
  /\ required_sip (F := float) (lit 1200 1) (lit 0 1) (lit (-1) 1)
     = Ok (lit (-100) 1)
  /\ emi (F := float) (lit 1200 1) (lit 0 1) (lit (-1) 1)
     = Ok (lit (-100) 1).
Proof.
  repeat split; vm_compute; reflexivity.
Qed.




(** A positive [years] below half a month yields no period at all. *)
Example period_count_small_years :
  0 < lit 4 100
  /\ period_count (F := Q) (lit 4 100) = Ok 0%Z
  /\ period_count (F := float) (lit 4 100) = Ok 0%Z.
Proof. repeat split. Qed.

(** ** Retirement target *)

(** C8: for all inputs [retirement_target] gives what the formula of the
    specification gives (the inflated monthly expense
    [monthly_expense_today * (1 + inflation_pct / 100) ^ years_to_retire]
    and the corpus [inflated_monthly * 12 / (swr_pct / 100)], or the same
    exception), and the result is the same for any two values of
    [retired_years], at both instances. *)
Theorem retirement_target_formula :
  (forall (m : Q) (years_to_retire retired_years : Z) (i s : Q),
     same_outcome (retirement_target m years_to_retire retired_years i s)
                  (retirement_formula m years_to_retire i s))
  /\ (forall (m : Q) (years_to_retire retired retired' : Z) (i s : Q),
        retirement_target m years_to_retire retired i s
        = retirement_target m years_to_retire retired' i s)
  /\ (forall (m : float) (years_to_retire retired retired' : Z) (i s : float),
        retirement_target m years_to_retire retired i s
        = retirement_target m years_to_retire retired' i s).
Proof.
  split; [|split; reflexivity].
  intros m y ry i s. unfold retirement_target, retirement_formula.
  change (truediv i (lit 100 1)) with (Ok (i / (100 # 1))).
  change (truediv s (lit 100 1)) with (Ok (s / (100 # 1))).
  cbn [bind].
  match goal with
  | |- context [bind (fpow ?b ?n) _] => destruct (fpow b n) as [g|e]
  end; cbn [bind same_outcome]; [|reflexivity].
  cbn [fmul of_int Exact]. unfold inject_Z.
  destruct (Qeq_bool s 0) eqn:S.
  - apply Qeq_bool_eq in S.
    rewrite (truediv_zero _ s S).
    rewrite (truediv_zero _ (s / (100 # 1))); [reflexivity|].
    rewrite S. reflexivity.
  - apply Qeq_bool_ne in S.
    rewrite (truediv_nonzero _ s S).
    rewrite (truediv_nonzero _ (s / (100 # 1))).
    + cbn [bind same_outcome]. split; [|reflexivity].
      field. exact S.
    + intro Z. apply S.
      assert (E : s == s / (100 # 1) * (100 # 1)) by (field; discriminate).
      rewrite E, Z. reflexivity.
Qed.

(** ** Allocation *)

Lemma suggest_allocation_band {F : Type} `{PyFloat F} (risk : string) (h : Z) :
  suggest_allocation risk h = suggest_allocation risk (horizon_band h).
Proof.
  unfold suggest_allocation, horizon_band.
  destruct (h >=? 10)%Z eqn:A; [reflexivity|].
  destruct (h <=? 3)%Z eqn:B; reflexivity.
Qed.

Lemma horizon_band_cases (h : Z) :
  horizon_band h = 10%Z \/ horizon_band h = 3%Z \/ horizon_band h = 5%Z.
Proof.
  unfold horizon_band.
  destruct (h >=? 10)%Z; [auto|]. destruct (h <=? 3)%Z; auto.
Qed.

Lemma dict_get_unknown {F : Type} `{PyFloat F} (key : string) :
  ~ In key risk_categories -> dict_get RISK_ALLOCATION key = None.
Proof.
  intro N. unfold RISK_ALLOCATION. cbn [dict_get].
  destruct (String.eqb_spec "conservative" key) as [E|_];
    [exfalso; apply N; left; exact E|].
  destruct (String.eqb_spec "moderate" key) as [E|_];
    [exfalso; apply N; right; left; exact E|].
  destruct (String.eqb_spec "aggressive" key) as [E|_];
    [exfalso; apply N; right; right; left; exact E|].
  reflexivity.
Qed.

Lemma base_split_unknown {F : Type} `{PyFloat F} (risk : string) :
  ~ In (strip (lower risk)) risk_categories ->
  base_split risk
  = Ok {| equity := lit 6 10; debt := lit 3 10; gold := lit 1 10 |}.
Proof.
  intro N. unfold base_split. cbv zeta.
  rewrite (dict_get_unknown _ N). reflexivity.
Qed.

Lemma suggest_allocation_unknown {F : Type} `{PyFloat F}
    (risk : string) (h : Z) :
  ~ In (strip (lower risk)) risk_categories ->
  suggest_allocation risk h = suggest_allocation "moderate" h.
Proof.
  intro N. unfold suggest_allocation.
  rewrite (base_split_unknown risk N). reflexivity.
Qed.

Lemma weights_ok_exact (a : Allocation Q) :
  weights_ok a = true ->
  0 <= equity a /\ 0 <= debt a /\ 0 <= gold a
  /\ Qabs (equity a + debt a + gold a - 1) <= 1 # 100.
Proof.
  unfold weights_ok. cbn [exact Exact]. intro W.
  repeat (apply andb_true_iff in W; destruct W as [W ?]).
  repeat split; apply Qle_bool_iff; assumption.
Qed.

(** The nine cases, run at each instance. *)
Lemma suggest_allocation_cases_exact (risk : string) (h : Z) :
  In risk risk_categories ->
  exists a : Allocation Q,
    suggest_allocation risk (horizon_band h) = Ok a /\ weights_ok a = true.
Proof.
  intro R.
  destruct R as [<-|[<-|[<-|[]]]];
    destruct (horizon_band_cases h) as [->|[->| ->]];
    eexists; (split; [vm_compute; reflexivity | vm_compute; reflexivity]).
Qed.

Lemma suggest_allocation_cases_binary64 (risk : string) (h : Z) :
  In risk risk_categories ->
  exists a : Allocation float,
    suggest_allocation risk (horizon_band h) = Ok a /\ weights_ok a = true.
Proof.
  intro R.
  destruct R as [<-|[<-|[<-|[]]]];
    destruct (horizon_band_cases h) as [->|[->| ->]];
    eexists; (split; [vm_compute; reflexivity | vm_compute; reflexivity]).
Qed.

(** C7: for each of the three risk categories and every horizon [>= 1],
    [suggest_allocation] returns three weights, none negative, whose sum
    is within 0.01 of 1.  Over the rationals, and on binary64 for the exact
    values of the three floats. *)
Theorem suggest_allocation_weights (risk : string) (h : Z) :
  In risk risk_categories -> (1 <= h)%Z ->
  (exists a : Allocation Q,
     suggest_allocation risk h = Ok a
     /\ 0 <= equity a /\ 0 <= debt a /\ 0 <= gold a
     /\ Qabs (equity a + debt a + gold a - 1) <= 1 # 100)
  /\ (exists a : Allocation float,
        suggest_allocation risk h = Ok a /\ weights_ok a = true).
Proof.
  intros R _. split.
  - destruct (suggest_allocation_cases_exact risk h R) as (a & E & W).
    exists a. split; [rewrite suggest_allocation_band; exact E|].
    apply weights_ok_exact. exact W.
  - destruct (suggest_allocation_cases_binary64 risk h R) as (a & E & W).
    exists a. split; [rewrite suggest_allocation_band; exact E | exact W].
Qed.

Lemma suggest_allocation_weights_witness :
  (In "aggressive" risk_categories /\ (1 <= 12)%Z)
  /\ (exists a : Allocation Q,
        suggest_allocation "aggressive" 12 = Ok a
        /\ 0 <= equity a /\ 0 <= debt a /\ 0 <= gold a
        /\ Qabs (equity a + debt a + gold a - 1) <= 1 # 100)
  /\ (exists a : Allocation float,
        suggest_allocation "aggressive" 12 = Ok a /\ weights_ok a = true).
Proof.
  assert (R : In "aggressive" risk_categories) by (simpl; auto).
  assert (L : (1 <= 12)%Z) by lia.
  split; [split; assumption|].
  exact (suggest_allocation_weights "aggressive" 12 R L).
Defined.

(** C10: a risk string that, lowercased and stripped, is none of
    [conservative], [moderate], [aggressive] does not make
    [suggest_allocation] fail: the base split is the moderate one
    (0.6, 0.3, 0.1), and the allocation returned is the one returned for
    [moderate] at the same horizon. *)
Theorem suggest_allocation_unknown_risk (risk : string) (h : Z) :
  ~ In (strip (lower risk)) risk_categories ->
  (base_split (F := Q) risk
   = Ok {| equity := lit 6 10; debt := lit 3 10; gold := lit 1 10 |}
   /\ exists a : Allocation Q,
        suggest_allocation risk h = Ok a
        /\ suggest_allocation "moderate" h = Ok a)
  /\ (base_split (F := float) risk
      = Ok {| equity := lit 6 10; debt := lit 3 10; gold := lit 1 10 |}
      /\ exists a : Allocation float,
           suggest_allocation risk h = Ok a
           /\ suggest_allocation "moderate" h = Ok a).
Proof.
  intro N.
  assert (M : In "moderate" risk_categories) by (simpl; auto).
  split; (split; [apply base_split_unknown; exact N|]).
  - destruct (suggest_allocation_cases_exact "moderate" h M) as (a & E & _).
    rewrite <- suggest_allocation_band in E.
    exists a. split; [rewrite (suggest_allocation_unknown risk h N)|]; exact E.
  - destruct (suggest_allocation_cases_binary64 "moderate" h M) as (a & E & _).
    rewrite <- suggest_allocation_band in E.
    exists a. split; [rewrite (suggest_allocation_unknown risk h N)|]; exact E.
Qed.

Lemma suggest_allocation_unknown_risk_witness :
  ~ In (strip (lower " Bold ")) risk_categories
  /\ (exists a : Allocation Q,
        suggest_allocation " Bold " 2 = Ok a
        /\ suggest_allocation "moderate" 2 = Ok a)
  /\ (exists a : Allocation float,
        suggest_allocation " Bold " 2 = Ok a
        /\ suggest_allocation "moderate" 2 = Ok a).
Proof.
  assert (N : ~ In (strip (lower " Bold ")) risk_categories).
  { vm_compute. intros [E|[E|[E|[]]]]; discriminate E. }
  split; [exact N|].
  destruct (suggest_allocation_unknown_risk " Bold " 2 N)
    as [[_ Hq] [_ Hf]].
  split; [exact Hq | exact Hf].
Defined.

(** * Further properties of the engine *)

(** ** The slab tax as a sum over the slabs *)

Lemma slab_step_sum (taxable upper lower tax r : Q) :
  slab_step taxable upper lower tax r
  == tax + pymax 0 (pymin taxable upper - lower) * r.
Proof.
  unfold slab_step, pymax, pymin, inject_Z. cbn [fltb Exact].
  repeat qtest; try lra.
Qed.

Lemma valid_from_inv (lower : Q) (s : TaxSlab Q) (rest : list (TaxSlab Q)) :
  valid_from lower (s :: rest) = true ->
  (0 <= rate s /\ rate s <= 1)
  /\ ((up_to s = None /\ rest = [])
      \/ (exists u, up_to s = Some u /\ lower < u /\ rest <> []
                    /\ valid_from u rest = true)).
Proof.
  cbn [valid_from]. unfold rate_in_unit. cbn [fleb lit Exact].
  destruct (up_to s) as [u|]; destruct rest as [|s' rest']; try discriminate.
  - intro V. apply andb_true_iff in V. destruct V as [V V2].
    apply andb_true_iff in V. destruct V as [L V1].
    apply andb_true_iff in V1. destruct V1 as [R0 R1].
    apply Qltb_lt in L. apply Qle_bool_iff in R0, R1.
    split; [split; lra|]. right. exists u. repeat split; try assumption.
    discriminate.
  - intro V. apply andb_true_iff in V. destruct V as [R0 R1].
    apply Qle_bool_iff in R0, R1. split; [split; lra|]. left. split; reflexivity.
Qed.

(** Past the income, the slabs of a valid table contribute nothing. *)
Lemma slab_sum_past (taxable : Q) (slabs : list (TaxSlab Q)) :
  forall lower, slabs = [] \/ valid_from lower slabs = true ->
    taxable <= lower -> slab_sum taxable slabs lower == 0.
Proof.
  induction slabs as [|s rest IH]; intros lower V L; [reflexivity|].
  destruct V as [V|V]; [discriminate|].
  apply valid_from_inv in V. destruct V as [_ [[N ->]|(u & U & Lu & _ & V)]].
  - cbn [slab_sum]. rewrite N.
    unfold pymax, pymin. cbn [fltb Exact]. repeat qtest; lra.
  - cbn [slab_sum]. rewrite U.
    rewrite (IH u (or_intror V)) by lra.
    unfold pymax, pymin. cbn [fltb Exact]. repeat qtest; lra.
Qed.

Lemma slab_loop_sum (taxable : Q) (slabs : list (TaxSlab Q)) :
  forall tax lower, valid_from lower slabs = true ->
    slab_loop taxable slabs tax lower == tax + slab_sum taxable slabs lower.
Proof.
  induction slabs as [|s rest IH]; intros tax lower V; [discriminate|].
  rewrite slab_loop_cons. cbv zeta. cbn [slab_sum].
  apply valid_from_inv in V. destruct V as [_ [[N ->]|(u & U & Lu & _ & V)]].
  - rewrite N. rewrite (proj2 (Qle_bool_iff _ _) (Qle_refl taxable)).
    rewrite slab_step_sum. cbn [slab_sum]. lra.
  - rewrite U. destruct (Qle_bool taxable u) eqn:B.
    + apply Qle_bool_iff in B. rewrite slab_step_sum.
      rewrite (slab_sum_past taxable rest u (or_intror V) B). lra.
    + rewrite (IH _ u V). rewrite slab_step_sum. lra.
Qed.

(** The early exit of the loop changes nothing for a valid table: the tax
    is the sum of the contributions of all the slabs. *)
Theorem slab_tax_is_sum_of_segments (taxable : Q) (slabs : list (TaxSlab Q)) :
  valid_slab_table slabs = true ->
  _slab_tax taxable slabs == slab_sum taxable slabs 0.
Proof.
  intro V. unfold _slab_tax. rewrite (slab_loop_sum taxable slabs _ _ V).
  cbn [lit Exact]. lra.
Qed.

Lemma slab_tax_is_sum_of_segments_witness :
  valid_slab_table (slabs_old (default_config (F := Q))) = true
  /\ _slab_tax (lit 800000 1) (slabs_old default_config)
     == slab_sum (lit 800000 1) (slabs_old default_config) 0.
Proof.
  split; [reflexivity|].
  apply slab_tax_is_sum_of_segments. reflexivity.
Defined.

(** ** The marginal rate *)

Lemma segment_growth (lower u a b : Q) :
  lower <= u -> a <= b ->
  0 <= pymax 0 (pymin b u - lower) - pymax 0 (pymin a u - lower)
  /\ pymax 0 (pymin b u - lower) - pymax 0 (pymin a u - lower)
     == (pymax lower b - pymax lower a) - (pymax u b - pymax u a).
Proof.
  intros L A. unfold pymax, pymin. cbn [fltb Exact].
  repeat qtest; split; lra.
Qed.

Lemma pymin_self (x : Q) : pymin x x = x.
Proof. unfold pymin. cbn [fltb Exact]. qtest; reflexivity. Qed.

Lemma open_segment_growth (lower a b : Q) :
  a <= b ->
  0 <= pymax 0 (pymin b b - lower) - pymax 0 (pymin a a - lower)
  /\ pymax 0 (pymin b b - lower) - pymax 0 (pymin a a - lower)
     == pymax lower b - pymax lower a.
Proof.
  intros A. rewrite !pymin_self. unfold pymax. cbn [fltb Exact].
  repeat qtest; split; lra.
Qed.

Lemma scaled_growth (x r top : Q) :
  0 <= x -> 0 <= r -> r <= top -> 0 <= x * r /\ x * r <= top * x.
Proof.
  intros X R T. split.
  - apply Qmult_le_0_compat; assumption.
  - rewrite (Qmult_comm x r). apply Qmult_le_compat_r; assumption.
Qed.

Lemma rates_at_most_cons (top : Q) (s : TaxSlab Q) (rest : list (TaxSlab Q)) :
  rates_at_most top (s :: rest) = true ->
  rate s <= top /\ rates_at_most top rest = true.
Proof.
  cbn [rates_at_most forallb]. intro R. apply andb_true_iff in R.
  destruct R as [R1 R2]. apply Qle_bool_iff in R1. split; assumption.
Qed.

Lemma slab_sum_growth (top : Q) (slabs : list (TaxSlab Q)) :
  forall lower a b,
    valid_from lower slabs = true -> rates_at_most top slabs = true ->
    a <= b ->
    0 <= slab_sum b slabs lower - slab_sum a slabs lower
    /\ slab_sum b slabs lower - slab_sum a slabs lower
       <= top * (pymax lower b - pymax lower a).
Proof.
  induction slabs as [|s rest IH]; intros lower a b V T A; [discriminate|].
  apply rates_at_most_cons in T. destruct T as [Rt T].
  apply valid_from_inv in V.
  destruct V as [[R0 _] [[N ->]|(u & U & Lu & _ & V)]]; cbn [slab_sum].
  - rewrite N.
    destruct (open_segment_growth lower a b A) as [X0 X].
    destruct (scaled_growth _ (rate s) top X0 R0 Rt) as [P0 P].
    rewrite X in P. cbn [slab_sum]. nra.
  - rewrite U.
    destruct (segment_growth lower u a b (Qlt_le_weak _ _ Lu) A) as [X0 X].
    destruct (scaled_growth _ (rate s) top X0 R0 Rt) as [P0 P].
    rewrite X in P.
    destruct (IH u a b V T A) as [I0 I]. nra.
Qed.

(** For a valid table whose rates are at most [top], an increase of the
    taxable income from [a >= 0] to [b] raises the slab tax by at most
    [top * (b - a)], and never lowers it. *)
Theorem slab_tax_marginal_rate (top : Q) (slabs : list (TaxSlab Q)) (a b : Q) :
  valid_slab_table slabs = true -> rates_at_most top slabs = true ->
  0 <= a -> a <= b ->
  0 <= _slab_tax b slabs - _slab_tax a slabs
  /\ _slab_tax b slabs - _slab_tax a slabs <= top * (b - a).
Proof.
  intros V T A0 A. unfold _slab_tax.
  rewrite !(slab_loop_sum _ slabs _ _ V).
  destruct (slab_sum_growth top slabs (lit 0 1) a b V T A) as [G0 G].
  assert (E : pymax (lit 0 1) b - pymax (lit 0 1) a == b - a).
  { unfold pymax. cbn [fltb lit Exact]. repeat qtest; lra. }
  rewrite E in G. split; lra.
Qed.

Lemma slab_tax_marginal_rate_witness :
  (valid_slab_table (slabs_new (default_config (F := Q))) = true
   /\ rates_at_most (3 # 10) (slabs_new default_config) = true
   /\ 0 <= lit 700000 1 /\ lit 700000 1 <= lit 700001 1)
  /\ 0 <= _slab_tax (lit 700001 1) (slabs_new default_config)
          - _slab_tax (lit 700000 1) (slabs_new default_config)
  /\ _slab_tax (lit 700001 1) (slabs_new default_config)
     - _slab_tax (lit 700000 1) (slabs_new default_config)
     <= (3 # 10) * (lit 700001 1 - lit 700000 1).
Proof.
  assert (V : valid_slab_table (slabs_new (default_config (F := Q))) = true)
    by reflexivity.
  assert (T : rates_at_most (3 # 10) (slabs_new default_config) = true)
    by reflexivity.
  assert (A0 : 0 <= lit 700000 1) by (cbn; lra).
  assert (A : lit 700000 1 <= lit 700001 1) by (cbn; lra).
  split; [repeat split; assumption|].
  exact (slab_tax_marginal_rate (3 # 10) _ _ _ V T A0 A).
Defined.

(** ** No tax on no income *)

(** For a valid table the slab tax of a taxable income [<= 0] is [0], and
    for a taxable income [>= 0] it lies between [0] and [top] times the
    income when no rate exceeds [top]. *)
Theorem slab_tax_bounds (top : Q) (slabs : list (TaxSlab Q)) (t : Q) :
  valid_slab_table slabs = true -> rates_at_most top slabs = true ->
  (t <= 0 -> _slab_tax t slabs == 0)
  /\ (0 <= t -> 0 <= _slab_tax t slabs /\ _slab_tax t slabs <= top * t).
Proof.
  intros V T. unfold _slab_tax.
  rewrite !(slab_loop_sum _ slabs _ _ V). cbn [lit Exact].
  assert (Z : forall x, x <= 0 -> slab_sum x slabs (0 # 1) == 0).
  { intros x X. apply slab_sum_past; [right; exact V | exact X]. }
  split.
  - intro N. rewrite (Z t N). lra.
  - intro P.
    destruct (slab_sum_growth top slabs (lit 0 1) 0 t V T P) as [G0 G].
    assert (E : pymax (lit 0 1) t - pymax (lit 0 1) 0 == t).
    { unfold pymax. cbn [fltb lit Exact]. repeat qtest; lra. }
    rewrite E in G. cbn [lit Exact] in G0, G.
    rewrite (Z 0 (Qle_refl 0)) in G0, G. split; lra.
Qed.

Lemma slab_tax_bounds_witness :
  (valid_slab_table (slabs_old (default_config (F := Q))) = true
   /\ rates_at_most (3 # 10) (slabs_old default_config) = true
   /\ lit (-5) 1 <= 0 /\ 0 <= lit 800000 1)
  /\ _slab_tax (lit (-5) 1) (slabs_old default_config) == 0
  /\ 0 <= _slab_tax (lit 800000 1) (slabs_old default_config)
  /\ _slab_tax (lit 800000 1) (slabs_old default_config)
     <= (3 # 10) * lit 800000 1.
Proof.
  assert (V : valid_slab_table (slabs_old (default_config (F := Q))) = true)
    by reflexivity.
  assert (T : rates_at_most (3 # 10) (slabs_old default_config) = true)
    by reflexivity.
  assert (N : lit (-5) 1 <= 0) by (cbn; lra).
  assert (P : 0 <= lit 800000 1) by (cbn; lra).
  split; [repeat split; assumption|].
  split.
  - exact (proj1 (slab_tax_bounds (3 # 10) _ (lit (-5) 1) V T) N).
  - exact (proj2 (slab_tax_bounds (3 # 10) _ (lit 800000 1) V T) P).
Defined.

(** ** The shape of an estimate *)

(** Whatever the regime string, [estimate] runs one of two paths; on each,
    the taxable income is the gross income less the deductions [D],
    floored at 0, and the tax follows from it by the slab table [slabs]
    and the rebate threshold [thr] of the regime. *)
Lemma estimate_paths {F : Type} `{PyFloat F} (cfg : TaxConfig F) (gross : F)
    (is_salaried : bool) (regime : string) (c d : F) (res : TaxEstimate F) :
  estimate cfg gross is_salaried regime c d = Ok res ->
  exists (D thr : F) (slabs : list (TaxSlab F)),
    ((D = (if is_salaried then std_deduction_new cfg else lit 0 1)
      /\ thr = rebate_threshold_new cfg /\ slabs = slabs_new cfg
      /\ est_regime res = lit 1 1 /\ est_deductions res = lit 0 1
      /\ est_std_deduction res = D
      /\ strip (lower regime) <> "old")
     \/
     (D = fadd (fadd (pymin (max_80C_old cfg) (pymax (lit 0 1) c))
                     (pymin (max_80D_old cfg) (pymax (lit 0 1) d)))
               (if is_salaried then std_deduction_old cfg else lit 0 1)
      /\ thr = rebate_threshold_old cfg /\ slabs = slabs_old cfg
      /\ est_regime res = lit 0 1
      /\ est_deductions res
         = fsub D (if is_salaried then std_deduction_old cfg else lit 0 1)
      /\ est_std_deduction res
         = (if is_salaried then std_deduction_old cfg else lit 0 1)
      /\ strip (lower regime) = "old"))
    /\ est_taxable res = pymax (lit 0 1) (fsub gross D)
    /\ est_base_tax res = _slab_tax (est_taxable res) slabs
    /\ est_rebate res
       = (if fleb (est_taxable res) thr then est_base_tax res else lit 0 1)
    /\ est_cess res
       = fmul (pymax (lit 0 1) (fsub (est_base_tax res) (est_rebate res)))
              (cess_rate cfg)
    /\ est_total_tax res
       = fadd (pymax (lit 0 1) (fsub (est_base_tax res) (est_rebate res)))
              (est_cess res).
Proof.
  unfold estimate. cbv zeta. rewrite !guarded_division_returns. cbn [bind].
  destruct (String.eqb_spec (strip (lower regime)) "new") as [En|Nn];
    [|destruct (String.eqb_spec (strip (lower regime)) "old") as [Eo|No]];
    try rewrite En; try rewrite Eo;
    destruct is_salaried;
    cbn [orb String.eqb Ascii.eqb Bool.eqb andb];
    intro E; injection E as <-; cbn;
    eexists _, _, _;
    (split;
     [first [ left; repeat split; try reflexivity;
              first [discriminate | assumption]
            | right; repeat split; reflexivity ]
     | repeat split; reflexivity ]).
Qed.

(** Case analysis on an innermost comparison of the goal: one whose
    operands hold no conditional. *)
Ltac flat t :=
  lazymatch t with
  | context [if _ then _ else _] => fail
  | _ => idtac
  end.

Ltac qtest_inner :=
  match goal with
  | |- context [Qltb ?a ?b] =>
      flat a; flat b;
      let E := fresh "T" in
      destruct (Qltb a b) eqn:E;
      [apply Qltb_lt in E | apply Qltb_ge in E]
  | |- context [Qle_bool ?a ?b] =>
      flat a; flat b;
      let E := fresh "T" in
      destruct (Qle_bool a b) eqn:E;
      [apply Qle_bool_iff in E | apply Qle_bool_gt in E]
  end.

(** The deductions of the default configuration are never negative, and
    the itemized part is at most the two caps together. *)
Lemma default_deductions (is_salaried : bool) (c d : Q) :
  let itemized := pymin (max_80C_old default_config) (pymax (lit 0 1) c)
                  + pymin (max_80D_old default_config) (pymax (lit 0 1) d) in
  0 <= itemized /\ itemized <= 175000
  /\ (0 <= c -> c <= 150000 -> 0 <= d -> d <= 25000 -> itemized == c + d).
Proof.
  cbv zeta. unfold pymin, pymax.
  cbn [fltb lit Exact max_80C_old max_80D_old default_config].
  repeat qtest_inner; repeat split; intros; lra.
Qed.

Lemma default_tables_valid :
  valid_slab_table (slabs_new (default_config (F := Q))) = true
  /\ valid_slab_table (slabs_old (default_config (F := Q))) = true
  /\ rates_at_most (3 # 10) (slabs_new default_config) = true
  /\ rates_at_most (3 # 10) (slabs_old default_config) = true.
Proof. repeat split. Qed.

(** The range of the slab tax, for a valid table with rates up to [top]. *)
Lemma slab_tax_range (top : Q) (slabs : list (TaxSlab Q)) (t : Q) :
  valid_slab_table slabs = true -> rates_at_most top slabs = true ->
  0 <= t -> 0 <= _slab_tax t slabs /\ _slab_tax t slabs <= top * t.
Proof.
  intros V T P. unfold _slab_tax.
  rewrite !(slab_loop_sum _ slabs _ _ V). cbn [lit Exact].
  destruct (slab_sum_growth top slabs (lit 0 1) 0 t V T P) as [G0 G].
  assert (E : pymax (lit 0 1) t - pymax (lit 0 1) 0 == t).
  { unfold pymax. cbn [fltb lit Exact]. repeat qtest; lra. }
  rewrite E in G. cbn [lit Exact] in G0, G.
  rewrite (slab_sum_past 0 slabs (0 # 1) (or_intror V) (Qle_refl 0)) in G0, G.
  split; lra.
Qed.

(** What every estimate of the default configuration satisfies, with the
    names of the proof: [T] taxable, [B] base tax, [R] rebate. *)
Lemma default_estimate_facts (gross : Q) (is_salaried : bool)
    (regime : string) (c d : Q) :
  exists (res : TaxEstimate Q) (D thr : Q),
    estimate default_config gross is_salaried regime c d = Ok res
    /\ 0 <= D
    /\ est_std_deduction res + est_deductions res == D
    /\ 0 <= est_std_deduction res /\ 0 <= est_deductions res
    /\ ((thr = 700000 /\ est_regime res = 1
         /\ est_base_tax res
            = _slab_tax (est_taxable res) (slabs_new default_config))
        \/ (thr = 500000 /\ est_regime res = 0
            /\ est_base_tax res
               = _slab_tax (est_taxable res) (slabs_old default_config)))
    /\ est_taxable res = pymax 0 (gross - D)
    /\ 0 <= est_taxable res
    /\ 0 <= est_base_tax res /\ est_base_tax res <= (3 # 10) * est_taxable res
    /\ (est_taxable res <= thr ->
        est_rebate res = est_base_tax res /\ est_total_tax res == 0)
    /\ (thr < est_taxable res ->
        est_rebate res = 0
        /\ est_total_tax res == (104 # 100) * est_base_tax res)
    /\ est_cess res == (4 # 100) * (est_base_tax res - est_rebate res)
    /\ est_total_tax res
       == (104 # 100) * (est_base_tax res - est_rebate res).
Proof.
  destruct (estimate_returns default_config gross is_salaried regime c d)
    as (res & E & _).
  destruct (estimate_paths _ _ _ _ _ _ _ E)
    as (D & thr & slabs & P & HT & HB & HR & HC & HTot).
  destruct (default_deductions is_salaried c d) as (I0 & I1 & _).
  cbv zeta in I0, I1.
  destruct default_tables_valid as (Vn & Vo & Tn & To).
  assert (T0 : 0 <= est_taxable res).
  { rewrite HT. apply pymax_zero_nonneg. }
  exists res, D, thr. split; [exact E|].
  assert (HD : 0 <= D /\ est_std_deduction res + est_deductions res == D
               /\ 0 <= est_std_deduction res /\ 0 <= est_deductions res
               /\ valid_slab_table slabs = true
               /\ rates_at_most (3 # 10) slabs = true
               /\ ((thr = 700000 /\ est_regime res = 1
                    /\ slabs = slabs_new default_config)
                   \/ (thr = 500000 /\ est_regime res = 0
                       /\ slabs = slabs_old default_config))).
  { destruct P as [(-> & -> & -> & Hr & Hd & Hs & _)
                  |(-> & -> & -> & Hr & Hd & Hs & _)];
      rewrite Hs, Hd; cbn [fadd fsub lit Exact] in *;
      destruct is_salaried;
      cbn [std_deduction_new std_deduction_old default_config lit Exact] in *;
      repeat split; try assumption; try lra; try reflexivity;
      first [left; repeat split; assumption
            | right; repeat split; assumption]. }
  destruct HD as (D0 & HS & S0 & Dd0 & V & Tp & Cases).
  destruct (slab_tax_range (3 # 10) slabs (est_taxable res) V Tp T0)
    as [B0 B1].
  rewrite <- HB in B0, B1.
  assert (Tot : forall R, est_rebate res = R -> 0 <= est_base_tax res - R ->
                  est_cess res == (4 # 100) * (est_base_tax res - R)
                  /\ est_total_tax res
                     == (104 # 100) * (est_base_tax res - R)).
  { intros R ER Pos. rewrite HTot, HC, ER.
    assert (M : pymax (lit 0 1) (est_base_tax res - R)
                == est_base_tax res - R).
    { unfold pymax. cbn [fltb lit Exact]. qtest; lra. }
    cbn [fadd fsub fmul cess_rate default_config lit Exact].
    rewrite M. split; lra. }
  split; [exact D0|]. split; [exact HS|]. split; [exact S0|].
  split; [exact Dd0|].
  split.
  { destruct Cases as [(-> & Hr & ->)|(-> & Hr & ->)];
      [left | right]; repeat split; assumption. }
  split; [exact HT|]. split; [exact T0|]. split; [exact B0|].
  split; [exact B1|].
  cbn [fleb Exact] in HR.
  destruct (Qle_bool (est_taxable res) thr) eqn:Le;
    [apply Qle_bool_iff in Le | apply Qle_bool_gt in Le].
  - destruct (Tot (est_base_tax res) HR ltac:(lra)) as [C1 C2].
    split; [intros _; split; [exact HR | rewrite C2; lra]|].
    split; [intro; lra|]. rewrite HR. split; [exact C1 | exact C2].
  - cbn [lit Exact] in HR.
    destruct (Tot (0 # 1) HR ltac:(lra)) as [C1 C2].
    split; [intro; lra|].
    split; [intros _; split; [exact HR | rewrite C2; lra]|].
    rewrite HR. split; [exact C1 | exact C2].
Qed.

Lemma estimate_by_path {F : Type} `{PyFloat F} (cfg : TaxConfig F) (gross : F)
    (is_salaried : bool) (regime : string) (c d : F) (res : TaxEstimate F) :
  estimate cfg gross is_salaried regime c d = Ok res ->
  est_taxable res
  = pymax (lit 0 1) (fsub gross (path_deductions cfg is_salaried regime c d))
  /\ est_total_tax res = tax_on cfg regime (est_taxable res).
Proof.
  intro E.
  destruct (estimate_paths _ _ _ _ _ _ _ E)
    as (D & thr & slabs & P & HT & HB & HR & HC & HTot).
  unfold path_deductions, tax_on, regime_is_old. cbv zeta.
  destruct P as [(-> & -> & -> & _ & _ & _ & N)|(-> & -> & -> & _ & _ & _ & O)].
  - apply String.eqb_neq in N. rewrite N.
    split; [exact HT|]. rewrite HTot, HC, HR, HB. reflexivity.
  - rewrite O. cbn [String.eqb Ascii.eqb Bool.eqb].
    split; [exact HT|]. rewrite HTot, HC, HR, HB. reflexivity.
Qed.

(** ** The regime string *)

(** A regime string that, lowercased and stripped, is neither [new] nor
    [old] is taken for [new]: the estimate is the one of the new regime. *)
Theorem estimate_unknown_regime_is_new {F : Type} `{PyFloat F}
    (cfg : TaxConfig F) (gross : F) (is_salaried : bool) (regime : string)
    (c d : F) :
  strip (lower regime) <> "new" -> strip (lower regime) <> "old" ->
  estimate cfg gross is_salaried regime c d
  = estimate cfg gross is_salaried "new" c d.
Proof.
  intros Nn No. unfold estimate. cbv zeta.
  apply String.eqb_neq in Nn, No. rewrite Nn, No. reflexivity.
Qed.

Lemma estimate_unknown_regime_is_new_witness :
  (strip (lower "Newest") <> "new" /\ strip (lower "Newest") <> "old")
  /\ estimate (F := float) default_config (lit 1800000 1) true "Newest"
       (lit 150000 1) (lit 25000 1)
     = estimate default_config (lit 1800000 1) true "new"
         (lit 150000 1) (lit 25000 1).
Proof.
  assert (Nn : strip (lower "Newest") <> "new") by (vm_compute; discriminate).
  assert (No : strip (lower "Newest") <> "old") by (vm_compute; discriminate).
  split; [split; assumption|].
  exact (estimate_unknown_regime_is_new default_config _ true "Newest" _ _
           Nn No).
Defined.

(** Outside the old regime the two itemized deductions are not read: any
    two pairs of them give the same estimate. *)
Theorem estimate_new_ignores_deductions {F : Type} `{PyFloat F}
    (cfg : TaxConfig F) (gross : F) (is_salaried : bool) (regime : string)
    (c d c' d' : F) :
  strip (lower regime) <> "old" ->
  estimate cfg gross is_salaried regime c d
  = estimate cfg gross is_salaried regime c' d'.
Proof.
  intros No. unfold estimate. cbv zeta.
  destruct (String.eqb_spec (strip (lower regime)) "new") as [En|Nn].
  - rewrite En. reflexivity.
  - apply String.eqb_neq in No. rewrite No. reflexivity.
Qed.

Lemma estimate_new_ignores_deductions_witness :
  strip (lower " New") <> "old"
  /\ estimate (F := float) default_config (lit 1800000 1) true " New"
       (lit 150000 1) (lit 25000 1)
     = estimate default_config (lit 1800000 1) true " New"
         (lit 0 1) (lit 0 1).
Proof.
  assert (No : strip (lower " New") <> "old") by (vm_compute; discriminate).
  split; [exact No|].
  exact (estimate_new_ignores_deductions default_config _ true " New"
           _ _ _ _ No).
Defined.

(** ** The rebate and the cess *)

(** The rebate is all or nothing.  With the default configuration the
    threshold is 700000 in the new regime and 500000 in the old one; at or
    below it the rebate is the whole base tax and the total tax is 0, above
    it there is no rebate and the total tax is 1.04 times the base tax. *)
Theorem estimate_rebate_cliff (gross : Q) (is_salaried : bool)
    (regime : string) (c d : Q) :
  exists (res : TaxEstimate Q) (thr : Q),
    estimate default_config gross is_salaried regime c d = Ok res
    /\ ((est_regime res = 1 /\ thr = 700000)
        \/ (est_regime res = 0 /\ thr = 500000))
    /\ (est_taxable res <= thr ->
        est_rebate res = est_base_tax res /\ est_total_tax res == 0)
    /\ (thr < est_taxable res ->
        est_rebate res = 0
        /\ est_total_tax res == (104 # 100) * est_base_tax res).
Proof.
  destruct (default_estimate_facts gross is_salaried regime c d)
    as (res & D & thr & E & _ & _ & _ & _ & Cases & _ & _ & _ & _ & Lo & Hi & _).
  exists res, thr. split; [exact E|]. split; [|split; assumption].
  destruct Cases as [(-> & R & _)|(-> & R & _)]; [left | right]; split;
    auto.
Qed.

(** The fields of an estimate add up: the cess is 4% of the tax left
    after the rebate and the total is that tax plus the cess; the taxable
    income, the standard deduction and the other deductions make up the
    gross income whenever the gross income covers the deductions, and the
    taxable income is 0 otherwise. *)
Theorem estimate_fields_add_up (gross : Q) (is_salaried : bool)
    (regime : string) (c d : Q) :
  exists res : TaxEstimate Q,
    estimate default_config gross is_salaried regime c d = Ok res
    /\ est_gross res = gross
    /\ est_cess res == (4 # 100) * (est_base_tax res - est_rebate res)
    /\ est_total_tax res
       == est_base_tax res - est_rebate res + est_cess res
    /\ (est_std_deduction res + est_deductions res <= gross ->
        est_taxable res + est_std_deduction res + est_deductions res
        == gross)
    /\ (gross <= est_std_deduction res + est_deductions res ->
        est_taxable res == 0).
Proof.
  destruct (default_estimate_facts gross is_salaried regime c d)
    as (res & D & thr & E & D0 & HS & _ & _ & _ & HT & _ & _ & _ & _ & _
        & HC & HTot).
  exists res. split; [exact E|].
  split.
  { revert E. unfold estimate. cbv zeta.
    rewrite !guarded_division_returns. cbn [bind].
    destruct (_ =? "new")%string; intro E; injection E as <-; reflexivity. }
  split; [exact HC|]. split; [rewrite HTot, HC; lra|].
  rewrite HS, HT. unfold pymax. cbn [fltb Exact].
  split; intro L; qtest; lra.
Qed.

(** ** Bounds on an estimate *)

(** For a gross income [>= 0] no field of the estimate is negative, the
    taxable income is at most the gross income, and the total tax is at
    most 31.2% of it (the top rate of 30% and the cess of 4% on it); so
    is the effective rate. *)
Theorem estimate_bounds (gross : Q) (is_salaried : bool)
    (regime : string) (c d : Q) :
  0 <= gross ->
  exists res : TaxEstimate Q,
    estimate default_config gross is_salaried regime c d = Ok res
    /\ 0 <= est_std_deduction res /\ 0 <= est_deductions res
    /\ 0 <= est_taxable res /\ est_taxable res <= gross
    /\ 0 <= est_rebate res /\ est_rebate res <= est_base_tax res
    /\ 0 <= est_cess res
    /\ 0 <= est_total_tax res /\ est_total_tax res <= (312 # 1000) * gross
    /\ 0 <= est_effective_rate res
    /\ est_effective_rate res <= 312 # 1000.
Proof.
  intro G.
  destruct (default_estimate_facts gross is_salaried regime c d)
    as (res & D & thr & E & D0 & HS & S0 & Dd0 & _ & HT & T0 & B0 & B1
        & Lo & Hi & HC & HTot).
  destruct (estimate_returns default_config gross is_salaried regime c d)
    as (res' & E' & Eff).
  rewrite E in E'. injection E' as <-.
  exists res. split; [exact E|].
  assert (TG : est_taxable res <= gross).
  { rewrite HT. unfold pymax. cbn [fltb Exact]. qtest; lra. }
  assert (R : 0 <= est_rebate res /\ est_rebate res <= est_base_tax res).
  { destruct (Qlt_le_dec thr (est_taxable res)) as [A|A].
    - destruct (Hi A) as [-> _]. split; lra.
    - destruct (Lo A) as [-> _]. split; lra. }
  destruct R as [R0 R1].
  assert (Tot : 0 <= est_total_tax res
                /\ est_total_tax res <= (312 # 1000) * gross).
  { rewrite HTot. split; lra. }
  destruct Tot as [Tot0 Tot1].
  repeat (split; [first [assumption | rewrite HC; lra]|]).
  rewrite Eff. cbn [feqb of_int fquot lit Exact].
  destruct (Qeq_bool gross (inject_Z 0)) eqn:Z; [split; lra|].
  apply Qeq_bool_ne in Z. unfold inject_Z in Z.
  assert (Gp : 0 < gross).
  { apply Qle_lt_or_eq in G. destruct G as [L|Eq]; [exact L|].
    exfalso. apply Z. symmetry. exact Eq. }
  split.
  - apply Qle_shift_div_l; [exact Gp | lra].
  - apply Qle_shift_div_r; [exact Gp | lra].
Qed.

Lemma estimate_bounds_witness :
  0 <= lit 1800000 1
  /\ exists res : TaxEstimate Q,
       estimate default_config (lit 1800000 1) true "old"
         (lit 200000 1) (lit 30000 1) = Ok res
       /\ est_taxable res <= lit 1800000 1
       /\ est_total_tax res <= (312 # 1000) * lit 1800000 1
       /\ est_effective_rate res <= 312 # 1000.
Proof.
  assert (G : 0 <= lit 1800000 1) by (cbn; lra).
  split; [exact G|].
  destruct (estimate_bounds (lit 1800000 1) true "old"
              (lit 200000 1) (lit 30000 1) G)
    as (res & E & _ & _ & _ & TG & _ & _ & _ & _ & Tot & _ & Eff).
  exists res. repeat split; assumption.
Defined.

(** ** More income, never less tax *)

Lemma tax_on_default_monotone (regime : string) (t1 t2 : Q) :
  0 <= t1 -> t1 <= t2 ->
  tax_on default_config regime t1 <= tax_on default_config regime t2.
Proof.
  intros P L. unfold tax_on. cbv zeta.
  destruct default_tables_valid as (Vn & Vo & Tn & To).
  set (slabs := if regime_is_old regime then slabs_old default_config
                else slabs_new default_config).
  set (thr := if regime_is_old regime then rebate_threshold_old default_config
              else rebate_threshold_new default_config).
  assert (V : valid_slab_table slabs = true
              /\ rates_at_most (3 # 10) slabs = true).
  { unfold slabs. destruct (regime_is_old regime); split; assumption. }
  destruct V as [V T].
  destruct (slab_tax_range _ slabs t1 V T P) as [B1 _].
  destruct (slab_tax_range _ slabs t2 V T ltac:(lra)) as [B2 _].
  assert (M : _slab_tax t1 slabs <= _slab_tax t2 slabs).
  { unfold _slab_tax. apply slab_loop_mono; [|exact L|apply Qle_refl].
    exact (valid_from_rates_nonneg slabs _ V). }
  set (b1 := _slab_tax t1 slabs) in *. set (b2 := _slab_tax t2 slabs) in *.
  unfold pymax.
  cbn [fleb fltb fadd fsub fmul cess_rate default_config lit Exact].
  destruct (Qle_bool t1 thr) eqn:L1;
    [apply Qle_bool_iff in L1 | apply Qle_bool_gt in L1];
  destruct (Qle_bool t2 thr) eqn:L2;
    [apply Qle_bool_iff in L2 | apply Qle_bool_gt in L2
    | apply Qle_bool_iff in L2 | apply Qle_bool_gt in L2];
  repeat qtest_inner; lra.
Qed.

(** With the other inputs fixed, a larger gross income gives a taxable
    income and a total tax that are at least as large: the rebate cliff is
    a jump upwards. *)
Theorem estimate_total_tax_monotone (g1 g2 : Q) (is_salaried : bool)
    (regime : string) (c d : Q) :
  g1 <= g2 ->
  exists r1 r2 : TaxEstimate Q,
    estimate default_config g1 is_salaried regime c d = Ok r1
    /\ estimate default_config g2 is_salaried regime c d = Ok r2
    /\ est_taxable r1 <= est_taxable r2
    /\ est_total_tax r1 <= est_total_tax r2.
Proof.
  intro L.
  destruct (estimate_returns default_config g1 is_salaried regime c d)
    as (r1 & E1 & _).
  destruct (estimate_returns default_config g2 is_salaried regime c d)
    as (r2 & E2 & _).
  exists r1, r2. split; [exact E1|]. split; [exact E2|].
  destruct (estimate_by_path _ _ _ _ _ _ _ E1) as [T1 Tot1].
  destruct (estimate_by_path _ _ _ _ _ _ _ E2) as [T2 Tot2].
  set (D := path_deductions default_config is_salaried regime c d) in *.
  assert (P1 : 0 <= est_taxable r1).
  { rewrite T1. apply pymax_zero_nonneg. }
  assert (TL : est_taxable r1 <= est_taxable r2).
  { rewrite T1, T2. unfold pymax. cbn [fltb fsub lit Exact].
    repeat qtest; lra. }
  split; [exact TL|]. rewrite Tot1, Tot2.
  apply tax_on_default_monotone; assumption.
Qed.

Lemma estimate_total_tax_monotone_witness :
  lit 750000 1 <= lit 750001 1
  /\ exists r1 r2 : TaxEstimate Q,
       estimate default_config (lit 750000 1) true "new" (lit 0 1) (lit 0 1)
       = Ok r1
       /\ estimate default_config (lit 750001 1) true "new" (lit 0 1) (lit 0 1)
          = Ok r2
       /\ est_total_tax r1 <= est_total_tax r2.
Proof.
  assert (L : lit 750000 1 <= lit 750001 1) by (cbn; lra).
  split; [exact L|].
  destruct (estimate_total_tax_monotone _ _ true "new" (lit 0 1) (lit 0 1) L)
    as (r1 & r2 & E1 & E2 & _ & M).
  exists r1, r2. repeat split; assumption.
Defined.

(** ** The itemized deductions of the old regime *)

(** In the old regime the deductions reported are never negative and
    never above 175000, the two caps together; amounts within the caps are
    taken as they are. *)
Theorem estimate_old_deductions_capped (gross : Q) (is_salaried : bool)
    (regime : string) (c d : Q) :
  strip (lower regime) = "old" ->
  exists res : TaxEstimate Q,
    estimate default_config gross is_salaried regime c d = Ok res
    /\ 0 <= est_deductions res /\ est_deductions res <= 175000
    /\ (0 <= c -> c <= 150000 -> 0 <= d -> d <= 25000 ->
        est_deductions res == c + d)
    /\ est_std_deduction res = (if is_salaried then 50000 else 0).
Proof.
  intro O.
  destruct (estimate_returns default_config gross is_salaried regime c d)
    as (res & E & _).
  exists res. split; [exact E|].
  destruct (estimate_paths _ _ _ _ _ _ _ E)
    as (D & thr & slabs & P & _).
  destruct P as [(_ & _ & _ & _ & _ & _ & N)|(-> & _ & _ & _ & Hd & Hs & _)];
    [contradiction|].
  destruct (default_deductions is_salaried c d) as (I0 & I1 & I2).
  cbv zeta in I0, I1, I2.
  set (itemized := pymin (max_80C_old default_config) (pymax (lit 0 1) c)
                   + pymin (max_80D_old default_config) (pymax (lit 0 1) d))
    in *.
  assert (Ed : est_deductions res == itemized).
  { rewrite Hd. cbn [fadd fsub Exact]. fold itemized. lra. }
  rewrite Ed. split; [exact I0|]. split; [exact I1|]. split; [exact I2|].
  rewrite Hs. destruct is_salaried; reflexivity.
Qed.

Lemma estimate_old_deductions_capped_witness :
  strip (lower " Old ") = "old"
  /\ exists res : TaxEstimate Q,
       estimate default_config (lit 1000000 1) true " Old "
         (lit 200000 1) (lit 30000 1) = Ok res
       /\ est_deductions res <= 175000.
Proof.
  assert (O : strip (lower " Old ") = "old") by reflexivity.
  split; [exact O|].
  destruct (estimate_old_deductions_capped (lit 1000000 1) true " Old "
              (lit 200000 1) (lit 30000 1) O) as (res & E & _ & C & _).
  exists res. split; assumption.
Defined.

(** ** Normalisation of the string inputs *)

Lemma lower_ascii_idem (c : ascii) : lower_ascii (lower_ascii c) = lower_ascii c.
Proof. destruct c as [[] [] [] [] [] [] [] []]; reflexivity. Qed.

Lemma is_space_lower (c : ascii) : is_space (lower_ascii c) = is_space c.
Proof. destruct c as [[] [] [] [] [] [] [] []]; reflexivity. Qed.

Lemma lower_idem (s : string) : lower (lower s) = lower s.
Proof.
  induction s as [|c s IH]; [reflexivity|].
  cbn [lower]. rewrite lower_ascii_idem, IH. reflexivity.
Qed.

Lemma lower_lstrip (s : string) : lstrip (lower s) = lower (lstrip s).
Proof.
  induction s as [|c s IH]; [reflexivity|].
  cbn [lower lstrip]. rewrite is_space_lower.
  destruct (is_space c); [exact IH | reflexivity].
Qed.

Lemma lower_rstrip (s : string) : rstrip (lower s) = lower (rstrip s).
Proof.
  induction s as [|c s IH]; [reflexivity|].
  cbn [lower rstrip]. rewrite IH, is_space_lower.
  destruct (rstrip s) as [|c' t]; cbn [lower].
  - destruct (is_space c); reflexivity.
  - reflexivity.
Qed.

Lemma lower_strip (s : string) : strip (lower s) = lower (strip s).
Proof. unfold strip. rewrite lower_lstrip, lower_rstrip. reflexivity. Qed.

Lemma rstrip_cons (c : ascii) (s : string) :
  rstrip (String c s)
  = match rstrip s with
    | EmptyString => if is_space c then EmptyString else String c EmptyString
    | t => String c t
    end.
Proof. reflexivity. Qed.

Lemma rstrip_idem (s : string) : rstrip (rstrip s) = rstrip s.
Proof.
  induction s as [|c s IH]; [reflexivity|].
  cbn [rstrip]. destruct (rstrip s) as [|c' t] eqn:R.
  - destruct (is_space c) eqn:Sp; [reflexivity|].
    cbn [rstrip]. rewrite Sp. reflexivity.
  - rewrite (rstrip_cons c (String c' t)), IH. reflexivity.
Qed.

Lemma lstrip_starts_clean (s : string) : starts_clean (lstrip s).
Proof.
  induction s as [|c s IH]; [exact I|].
  cbn [lstrip]. destruct (is_space c) eqn:Sp; [exact IH | exact Sp].
Qed.

Lemma rstrip_starts_clean (s : string) :
  starts_clean s -> starts_clean (rstrip s).
Proof.
  destruct s as [|c s]; [trivial|].
  cbn [starts_clean rstrip]. intro Sp.
  destruct (rstrip s); [rewrite Sp|]; exact Sp.
Qed.

Lemma lstrip_clean (s : string) : starts_clean s -> lstrip s = s.
Proof.
  destruct s as [|c s]; [reflexivity|].
  cbn [starts_clean lstrip]. intros ->. reflexivity.
Qed.

Lemma strip_idem (s : string) : strip (strip s) = strip s.
Proof.
  unfold strip.
  rewrite (lstrip_clean (rstrip (lstrip s))).
  - apply rstrip_idem.
  - apply rstrip_starts_clean, lstrip_starts_clean.
Qed.

Lemma normalise_idem (s : string) :
  strip (lower (strip (lower s))) = strip (lower s).
Proof.
  rewrite (lower_strip (strip (lower s))), strip_idem.
  rewrite <- lower_strip, lower_idem. reflexivity.
Qed.

(** The regime and the risk category are read up to case and surrounding
    whitespace: a string and its normal form [s.lower().strip()] give the
    same estimate and the same allocation. *)
Theorem string_inputs_normalised {F : Type} `{PyFloat F} (s : string) :
  (forall (cfg : TaxConfig F) (gross : F) (is_salaried : bool) (c d : F),
     estimate cfg gross is_salaried s c d
     = estimate cfg gross is_salaried (strip (lower s)) c d)
  /\ (forall h : Z,
        suggest_allocation s h = suggest_allocation (strip (lower s)) h).
Proof.
  split; intros.
  - unfold estimate. rewrite normalise_idem. reflexivity.
  - unfold suggest_allocation, base_split. rewrite normalise_idem.
    reflexivity.
Qed.

(** Normalising twice is normalising once, and the normal form has no
    capital letter and no space at either end. *)
Theorem normal_form_is_fixed (s : string) :
  strip (lower (strip (lower s))) = strip (lower s)
  /\ lower (strip (lower s)) = strip (lower s)
  /\ strip (strip (lower s)) = strip (lower s).
Proof.
  split; [apply normalise_idem|]. split.
  - rewrite <- lower_strip, lower_idem. reflexivity.
  - apply strip_idem.
Qed.

(** ** [clamp] *)

(** [clamp] never returns less than the lower bound, even when the bounds
    are given in the wrong order; with [lo <= hi] the result also stays at
    or below [hi], and a value already in range is returned as it is. *)
Theorem clamp_range (x lo hi : Q) :
  lo <= clamp x lo hi
  /\ (lo <= hi -> clamp x lo hi <= hi)
  /\ (lo <= x -> x <= hi -> clamp x lo hi == x)
  /\ (hi < lo -> clamp x lo hi = lo).
Proof.
  unfold clamp, pymax, pymin. cbn [fltb Exact].
  repeat qtest_inner; repeat split; intros; try lra; try reflexivity.
  all: exfalso; lra.
Qed.

(** ** [savings_capacity] *)

(** The savings capacity is known exactly when the income and the expenses
    both are; it is then never negative: the income less the expenses, or
    0 when the expenses exceed the income. *)
Theorem savings_capacity_cases (p : UserProfile Q) :
  (savings_capacity p = None
   <-> monthly_income p = None \/ monthly_expenses p = None)
  /\ (forall income expenses,
        monthly_income p = Some income ->
        monthly_expenses p = Some expenses ->
        exists s, savings_capacity p = Some s /\ 0 <= s
          /\ (expenses <= income -> s == income - expenses)
          /\ (income <= expenses -> s == 0)).
Proof.
  unfold savings_capacity. split.
  - destruct (monthly_income p), (monthly_expenses p); split;
      try discriminate; auto; intros [E|E]; discriminate E.
  - intros income expenses -> ->. eexists. split; [reflexivity|].
    unfold pymax. cbn [fltb fsub lit Exact].
    qtest; repeat split; intros; lra.
Qed.

(** ** The annuity formulas, month by month *)

Lemma Qpower_succ (q : Q) (k : nat) :
  q ^ Z.of_nat (S k) == q ^ Z.of_nat k * q.
Proof.
  rewrite Nat2Z.inj_succ. unfold Z.succ.
  rewrite Qpower_plus' by lia. rewrite Qpower_1_r. reflexivity.
Qed.

Lemma inject_Z_succ (k : nat) :
  inject_Z (Z.of_nat (S k)) == inject_Z (Z.of_nat k) + 1.
Proof.
  rewrite Nat2Z.inj_succ. unfold Z.succ. rewrite inject_Z_plus. reflexivity.
Qed.

(** The closed forms of the two balances, without a division. *)
Lemma loan_balance_closed (principal r payment : Q) (k : nat) :
  loan_balance principal r payment k * r
  == principal * (1 + r) ^ Z.of_nat k * r
     - payment * ((1 + r) ^ Z.of_nat k - 1).
Proof.
  induction k as [|k IH].
  - cbn [loan_balance Z.of_nat Qpower]. ring.
  - cbn [loan_balance]. rewrite Qpower_succ.
    set (B := loan_balance principal r payment k) in *.
    set (g := (1 + r) ^ Z.of_nat k) in *.
    assert (E : (B * (1 + r) - payment) * r
                == (B * r) * (1 + r) - payment * r) by ring.
    rewrite E, IH. ring.
Qed.

Lemma loan_balance_flat (principal r payment : Q) (k : nat) :
  r == 0 ->
  loan_balance principal r payment k
  == principal - inject_Z (Z.of_nat k) * payment.
Proof.
  intro R. induction k as [|k IH].
  - cbn [loan_balance Z.of_nat]. unfold inject_Z. ring.
  - cbn [loan_balance]. rewrite inject_Z_succ.
    set (B := loan_balance principal r payment k) in *.
    rewrite R, IH. ring.
Qed.

Lemma sip_balance_closed (monthly r : Q) (k : nat) :
  sip_balance monthly r k * r
  == monthly * (1 + r) * ((1 + r) ^ Z.of_nat k - 1).
Proof.
  induction k as [|k IH].
  - cbn [sip_balance Z.of_nat Qpower]. ring.
  - cbn [sip_balance]. rewrite Qpower_succ.
    set (S := sip_balance monthly r k) in *.
    set (g := (1 + r) ^ Z.of_nat k) in *.
    assert (E : (S + monthly) * (1 + r) * r
                == (S * r) * (1 + r) + monthly * (1 + r) * r) by ring.
    rewrite E, IH. ring.
Qed.

Lemma sip_balance_flat (monthly r : Q) (k : nat) :
  r == 0 -> sip_balance monthly r k == inject_Z (Z.of_nat k) * monthly.
Proof.
  intro R. induction k as [|k IH].
  - cbn [sip_balance Z.of_nat]. unfold inject_Z. ring.
  - cbn [sip_balance]. rewrite inject_Z_succ.
    set (S := sip_balance monthly r k) in *.
    rewrite R, IH. ring.
Qed.

Lemma sip_balance_at_least (monthly r : Q) (k : nat) :
  0 <= monthly -> 0 <= r ->
  inject_Z (Z.of_nat k) * monthly <= sip_balance monthly r k.
Proof.
  intros M R. induction k as [|k IH].
  - cbn [sip_balance Z.of_nat]. unfold inject_Z. lra.
  - cbn [sip_balance]. rewrite inject_Z_succ.
    set (S := sip_balance monthly r k) in *.
    assert (K : 0 <= inject_Z (Z.of_nat k)).
    { unfold inject_Z, Qle. simpl. lia. }
    set (n := inject_Z (Z.of_nat k)) in *.
    assert (0 <= n * monthly) by (apply Qmult_le_0_compat; assumption).
    assert (0 <= (S + monthly) * r) by (apply Qmult_le_0_compat; lra).
    lra.
Qed.

(** Interest of [k] months on the compounded amount covers the growth. *)
Lemma growth_below_interest (r : Q) (k : nat) :
  0 <= r ->
  1 <= (1 + r) ^ Z.of_nat k
  /\ (1 + r) ^ Z.of_nat k - 1
     <= inject_Z (Z.of_nat k) * r * (1 + r) ^ Z.of_nat k.
Proof.
  intro R. induction k as [|k [G IH]].
  - cbn [Z.of_nat Qpower]. unfold inject_Z. split; lra.
  - rewrite Qpower_succ, inject_Z_succ.
    assert (K : 0 <= inject_Z (Z.of_nat k)).
    { unfold inject_Z, Qle. simpl. lia. }
    set (n := inject_Z (Z.of_nat k)) in *.
    set (g := (1 + r) ^ Z.of_nat k) in *.
    assert (P1 : 0 <= g * r) by (apply Qmult_le_0_compat; lra).
    assert (P2 : 0 <= (n + 1) * (r * r * g)).
    { apply Qmult_le_0_compat; [lra|].
      apply Qmult_le_0_compat; [|lra]. apply Qmult_le_0_compat; lra. }
    split; [lra|]. nra.
Qed.

(** The monthly rate of a non-negative annual percentage. *)
Lemma monthly_rate_nonneg (annual : Q) :
  0 <= annual -> 0 <= monthly_rate_of annual.
Proof.
  intro A. unfold monthly_rate_of.
  apply Qle_shift_div_l; [reflexivity|].
  apply Qle_shift_div_l; [reflexivity|]. lra.
Qed.

Lemma rate_zero_or_positive (r : Q) :
  0 <= r -> (Qeq_bool r 0 = true /\ r == 0) \/ (Qeq_bool r 0 = false /\ 0 < r).
Proof.
  intro R. destruct (Qeq_bool r 0) eqn:E.
  - left. split; [reflexivity | apply Qeq_bool_eq; exact E].
  - right. split; [reflexivity|]. apply Qeq_bool_ne in E.
    apply Qle_lt_or_eq in R. destruct R as [L|Z]; [exact L|].
    exfalso. apply E. symmetry. exact Z.
Qed.

Lemma Qpow_nonneg_exponent (b : Q) (n : Z) :
  (0 <= n)%Z -> Qpow b n = Ok (b ^ n).
Proof.
  intro N. unfold Qpow.
  replace (n <? 0)%Z with false by (symmetry; apply Z.ltb_ge; exact N).
  reflexivity.
Qed.

Lemma flat_power (r : Q) (n : Z) : r == 0 -> (1 + r) ^ n == 1.
Proof.
  intro R. rewrite R. setoid_replace (1 + 0) with 1 by ring. apply Qpower_1.
Qed.

(** What the three functions return over the rationals, for a rate
    [>= 0]: [r] is the monthly rate and [g = (1 + r) ^ n]. *)
Lemma future_value_sip_value (x annual years : Q) (n : Z) :
  0 <= annual -> period_count years = Ok n -> (0 <= n)%Z ->
  let r := monthly_rate_of annual in
  exists fv, future_value_sip x annual years = Ok fv
    /\ fv * r == x * (1 + r) * ((1 + r) ^ n - 1)
    /\ (r == 0 -> fv == inject_Z n * x).
Proof.
  intros A P N r.
  pose proof (monthly_rate_nonneg annual A) as R0. fold r in R0.
  unfold future_value_sip. rewrite monthly_rate, P. cbn [bind].
  fold (monthly_rate_of annual). fold r.
  cbn [feqb of_int fadd fsub fmul fpow Exact]. unfold inject_Z at 1.
  change (inject_Z 1) with 1.
  destruct (rate_zero_or_positive r R0) as [[B Z]|[B Rp]]; rewrite B.
  - eexists. split; [reflexivity|].
    split; [rewrite (flat_power r n Z), Z; ring | intros _; ring].
  - rewrite (Qpow_nonneg_exponent _ n N). cbn [bind].
    rewrite truediv_nonzero by lra. cbn [bind].
    eexists. split; [reflexivity|]. split; [field; lra | intro Z; lra].
Qed.

Lemma required_sip_value (t annual years : Q) (n : Z) :
  0 <= annual -> period_count years = Ok n -> (1 <= n)%Z ->
  let r := monthly_rate_of annual in
  exists s, required_sip t annual years = Ok s
    /\ s * (1 + r) * ((1 + r) ^ n - 1) == t * r
    /\ (r == 0 -> s * inject_Z n == t).
Proof.
  intros A P N r.
  pose proof (monthly_rate_nonneg annual A) as R0. fold r in R0.
  assert (Nz : ~ inject_Z n == 0).
  { unfold inject_Z, Qeq. simpl. lia. }
  unfold required_sip. rewrite monthly_rate, P. cbn [bind].
  fold (monthly_rate_of annual). fold r.
  cbn [feqb of_int fadd fsub fmul fpow Exact]. unfold inject_Z at 1.
  change (inject_Z 1) with 1.
  destruct (rate_zero_or_positive r R0) as [[B Z]|[B Rp]]; rewrite B.
  - rewrite truediv_nonzero by exact Nz.
    eexists. split; [reflexivity|].
    split; [rewrite (flat_power r n Z), Z; ring | intros _; field; exact Nz].
  - rewrite (Qpow_nonneg_exponent _ n) by lia. cbn [bind].
    assert (G : 1 < (1 + r) ^ n) by (apply Qpower_1_lt; [lra | lia]).
    set (g := (1 + r) ^ n) in *.
    rewrite truediv_nonzero by lra. cbn [bind].
    assert (D : ~ (g - 1) / r * (1 + r) == 0).
    { intro Z.
      assert (0 < (g - 1) / r) by (apply Qlt_shift_div_l; lra).
      assert (0 < (g - 1) / r * (1 + r)) by (apply Qmult_lt_0_compat; lra).
      lra. }
    rewrite truediv_nonzero by exact D.
    eexists. split; [reflexivity|].
    split; [field; repeat split; lra | intro Z; lra].
Qed.

Lemma emi_value (principal annual years : Q) (n : Z) :
  0 <= annual -> period_count years = Ok n -> (1 <= n)%Z ->
  let r := monthly_rate_of annual in
  exists m, emi principal annual years = Ok m
    /\ m * ((1 + r) ^ n - 1) == principal * r * (1 + r) ^ n
    /\ (r == 0 -> m * inject_Z n == principal).
Proof.
  intros A P N r.
  pose proof (monthly_rate_nonneg annual A) as R0. fold r in R0.
  assert (Nz : ~ inject_Z n == 0).
  { unfold inject_Z, Qeq. simpl. lia. }
  unfold emi. rewrite monthly_rate, P. cbn [bind].
  fold (monthly_rate_of annual). fold r.
  cbn [feqb of_int fadd fsub fmul fpow Exact]. unfold inject_Z at 1.
  change (inject_Z 1) with 1.
  destruct (rate_zero_or_positive r R0) as [[B Z]|[B Rp]]; rewrite B.
  - rewrite truediv_nonzero by exact Nz.
    eexists. split; [reflexivity|].
    split; [rewrite (flat_power r n Z), Z; ring | intros _; field; exact Nz].
  - rewrite (Qpow_nonneg_exponent _ n) by lia. cbn [bind].
    assert (G : 1 < (1 + r) ^ n) by (apply Qpower_1_lt; [lra | lia]).
    set (g := (1 + r) ^ n) in *.
    rewrite truediv_nonzero by lra.
    eexists. split; [reflexivity|].
    split; [field; lra | intro Z; lra].
Qed.

(** [emi] is the payment that pays the loan off: with the interest of
    every month added and the payment taken off, the balance after the
    last of the [n >= 1] months is 0. *)
Theorem emi_amortises (principal annual years : Q) (n : Z) :
  0 <= annual -> period_count years = Ok n -> (1 <= n)%Z ->
  exists m, emi principal annual years = Ok m
    /\ loan_balance principal (monthly_rate_of annual) m (Z.to_nat n) == 0.
Proof.
  intros A P N.
  destruct (emi_value principal annual years n A P N) as (m & E & V & V0).
  cbv zeta in V, V0. exists m. split; [exact E|].
  pose proof (monthly_rate_nonneg annual A) as R0.
  set (r := monthly_rate_of annual) in *.
  assert (K : Z.of_nat (Z.to_nat n) = n) by (apply Z2Nat.id; lia).
  destruct (rate_zero_or_positive r R0) as [[_ Z]|[_ Rp]].
  - rewrite (loan_balance_flat _ r _ _ Z), K. rewrite <- (V0 Z). ring.
  - pose proof (loan_balance_closed principal r m (Z.to_nat n)) as C.
    rewrite K in C.
    assert (Z : loan_balance principal r m (Z.to_nat n) * r == 0).
    { rewrite C, V. ring. }
    set (B := loan_balance principal r m (Z.to_nat n)) in *.
    nra.
Qed.

Lemma emi_amortises_witness :
  (0 <= lit 12 1 /\ period_count (F := Q) (lit 1 1) = Ok 12%Z /\ (1 <= 12)%Z)
  /\ exists m, emi (lit 100000 1) (lit 12 1) (lit 1 1) = Ok m
       /\ loan_balance (lit 100000 1) (monthly_rate_of (lit 12 1)) m
            (Z.to_nat 12) == 0.
Proof.
  assert (A : 0 <= lit 12 1) by (cbn; lra).
  assert (P : period_count (F := Q) (lit 1 1) = Ok 12%Z) by reflexivity.
  assert (N : (1 <= 12)%Z) by lia.
  split; [repeat split; assumption|].
  exact (emi_amortises (lit 100000 1) (lit 12 1) (lit 1 1) 12%Z A P N).
Defined.

(** [future_value_sip] is the value of [n] deposits, each made at the
    start of its month and compounded monthly; for a deposit [>= 0] it is
    therefore at least the sum of the deposits. *)
Theorem future_value_sip_is_compounded_deposits (x annual years : Q) (n : Z) :
  0 <= annual -> period_count years = Ok n -> (0 <= n)%Z ->
  exists fv, future_value_sip x annual years = Ok fv
    /\ fv == sip_balance x (monthly_rate_of annual) (Z.to_nat n)
    /\ (0 <= x -> inject_Z n * x <= fv).
Proof.
  intros A P N.
  destruct (future_value_sip_value x annual years n A P N) as (fv & E & V & V0).
  cbv zeta in V, V0. exists fv. split; [exact E|].
  pose proof (monthly_rate_nonneg annual A) as R0.
  set (r := monthly_rate_of annual) in *.
  assert (K : Z.of_nat (Z.to_nat n) = n) by (apply Z2Nat.id; lia).
  assert (S : fv == sip_balance x r (Z.to_nat n)).
  { destruct (rate_zero_or_positive r R0) as [[_ Z]|[_ Rp]].
    - rewrite (sip_balance_flat _ r _ Z), K. exact (V0 Z).
    - pose proof (sip_balance_closed x r (Z.to_nat n)) as C.
      rewrite K, <- V in C.
      set (B := sip_balance x r (Z.to_nat n)) in *. nra. }
  split; [exact S|]. intro X. rewrite S.
  pose proof (sip_balance_at_least x r (Z.to_nat n) X R0) as L.
  rewrite K in L. exact L.
Qed.

Lemma future_value_sip_is_compounded_deposits_witness :
  (0 <= lit 12 1 /\ period_count (F := Q) (lit 1 1) = Ok 12%Z /\ (0 <= 12)%Z)
  /\ exists fv, future_value_sip (lit 1000 1) (lit 12 1) (lit 1 1) = Ok fv
       /\ fv == sip_balance (lit 1000 1) (monthly_rate_of (lit 12 1))
                  (Z.to_nat 12)
       /\ inject_Z 12 * lit 1000 1 <= fv.
Proof.
  assert (A : 0 <= lit 12 1) by (cbn; lra).
  assert (P : period_count (F := Q) (lit 1 1) = Ok 12%Z) by reflexivity.
  assert (N : (0 <= 12)%Z) by lia.
  assert (X : 0 <= lit 1000 1) by (cbn; lra).
  split; [repeat split; assumption|].
  destruct (future_value_sip_is_compounded_deposits
              (lit 1000 1) (lit 12 1) (lit 1 1) 12%Z A P N)
    as (fv & E & S & L).
  exists fv. split; [exact E|]. split; [exact S | exact (L X)].
Defined.

(** ** The period count *)

Lemma round_half_even_near (x : Q) :
  inject_Z (round_half_even x) - x <= 1 # 2
  /\ x - inject_Z (round_half_even x) <= 1 # 2.
Proof.
  unfold round_half_even.
  pose proof (Qfloor_le x) as L. pose proof (Qlt_floor x) as U.
  rewrite inject_Z_plus in U. change (inject_Z 1) with 1 in U.
  set (f := Qfloor x) in *.
  destruct (Qcompare_spec (x - inject_Z f) (1 # 2)) as [E|E|E].
  - destruct (Z.even f); [|rewrite inject_Z_plus; change (inject_Z 1) with 1];
      split; lra.
  - split; lra.
  - rewrite inject_Z_plus. change (inject_Z 1) with 1. split; lra.
Qed.

Lemma round_half_even_whole (z : Z) : round_half_even (inject_Z z) = z.
Proof.
  unfold round_half_even. rewrite Qfloor_Z.
  set (q := inject_Z z).
  destruct (Qcompare_spec (q - q) (1 # 2)) as [E|E|E];
    [exfalso; lra | reflexivity | exfalso; lra].
Qed.

Lemma period_count_whole (y : Z) :
  period_count (F := Q) (of_int y) = Ok (y * 12)%Z.
Proof.
  unfold period_count. cbn [round_int fmul of_int Exact].
  change (inject_Z y * inject_Z 12) with (inject_Z (y * 12)).
  rewrite round_half_even_whole. reflexivity.
Qed.

(** The number of monthly periods is [years * 12] rounded to the nearest
    whole number, at most half a month away; for a whole number of years
    [y] it is [12 * y]. *)
Theorem period_count_nearest_month (years : Q) :
  (exists n, period_count years = Ok n
     /\ Qabs (inject_Z n - years * 12) <= 1 # 2)
  /\ (forall y : Z, period_count (F := Q) (of_int y) = Ok (12 * y)%Z).
Proof.
  split.
  - exists (round_half_even (years * 12)). split; [reflexivity|].
    destruct (round_half_even_near (years * 12)) as [A B].
    apply Qabs_Qle_condition. split; lra.
  - intro y. rewrite period_count_whole. f_equal. lia.
Qed.

(** ** Loan payments *)

Lemma monthly_rate_zero (annual : Q) :
  annual == 0 -> monthly_rate_of annual == 0.
Proof. intro A. unfold monthly_rate_of. rewrite A. reflexivity. Qed.

(** What [cmd_emi] shows for a principal [>= 0], a rate [>= 0] and at
    least one month: the payment is not negative, the total paid is the
    payment times the number of months, the total interest is not
    negative, and it is 0 at a zero rate. *)
Theorem emi_summary_interest (principal annual years : Q) (n : Z) :
  0 <= principal -> 0 <= annual ->
  period_count years = Ok n -> (1 <= n)%Z ->
  exists m interest total,
    emi_summary principal annual years = Ok (m, interest, total)
    /\ 0 <= m
    /\ total == m * inject_Z n
    /\ interest == total - principal
    /\ 0 <= interest
    /\ (annual == 0 -> interest == 0).
Proof.
  intros P0 A P N.
  destruct (emi_value principal annual years n A P N) as (m & E & V & V0).
  cbv zeta in V, V0.
  pose proof (monthly_rate_nonneg annual A) as R0.
  set (r := monthly_rate_of annual) in *.
  unfold emi_summary. rewrite E, P. cbn [bind fmul fsub of_int Exact].
  exists m, (m * inject_Z n - principal), (m * inject_Z n).
  split; [reflexivity|].
  assert (K : Z.of_nat (Z.to_nat n) = n) by (apply Z2Nat.id; lia).
  assert (Np : 1 <= inject_Z n).
  { unfold inject_Z, Qle. simpl. lia. }
  assert (Facts : 0 <= m /\ 0 <= m * inject_Z n - principal).
  { destruct (rate_zero_or_positive r R0) as [[_ Z]|[_ Rp]].
    - specialize (V0 Z). split; [|lra].
      set (k := inject_Z n) in *. nra.
    - destruct (growth_below_interest r (Z.to_nat n) R0) as [G1 G2].
      rewrite K in G1, G2.
      assert (G : 1 < (1 + r) ^ n) by (apply Qpower_1_lt; [lra | lia]).
      set (g := (1 + r) ^ n) in *. set (k := inject_Z n) in *.
      assert (M0 : 0 <= principal * r * g).
      { apply Qmult_le_0_compat; [apply Qmult_le_0_compat|]; lra. }
      assert (M : 0 <= m).
      { destruct (Qlt_le_dec m 0) as [Neg|Pos]; [|exact Pos].
        exfalso. assert (m * (g - 1) < 0) by nra. lra. }
      split; [exact M|].
      assert (I : (m * k - principal) * (g - 1)
                  == principal * (k * r * g - (g - 1))).
      { assert (E1 : (m * k - principal) * (g - 1)
                     == m * (g - 1) * k - principal * (g - 1)) by ring.
        rewrite E1, V. ring. }
      assert (I0 : 0 <= principal * (k * r * g - (g - 1))).
      { apply Qmult_le_0_compat; lra. }
      rewrite <- I in I0.
      destruct (Qlt_le_dec (m * k - principal) 0) as [Neg|Pos]; [|exact Pos].
      exfalso. set (i := m * k - principal) in *.
      assert (i * (g - 1) < 0) by nra. lra. }
  destruct Facts as [M I].
  repeat split; try assumption; try reflexivity.
  intro Z0. apply monthly_rate_zero in Z0. fold r in Z0.
  rewrite <- (V0 Z0). ring.
Qed.

Lemma emi_summary_interest_witness :
  (0 <= lit 100000 1 /\ 0 <= lit 12 1
   /\ period_count (F := Q) (lit 1 1) = Ok 12%Z /\ (1 <= 12)%Z)
  /\ exists m interest total,
       emi_summary (lit 100000 1) (lit 12 1) (lit 1 1)
       = Ok (m, interest, total)
       /\ total == m * inject_Z 12 /\ 0 <= interest.
Proof.
  assert (P0 : 0 <= lit 100000 1) by (cbn; lra).
  assert (A : 0 <= lit 12 1) by (cbn; lra).
  assert (P : period_count (F := Q) (lit 1 1) = Ok 12%Z) by reflexivity.
  assert (N : (1 <= 12)%Z) by lia.
  split; [repeat split; assumption|].
  destruct (emi_summary_interest (lit 100000 1) (lit 12 1) (lit 1 1) 12%Z
              P0 A P N) as (m & i & t & E & _ & T & _ & I & _).
  exists m, i, t. repeat split; assumption.
Defined.

(** ** Reaching a target *)

(** For a rate [>= 0] and at least one month, investing [required_sip] of
    a target every month is worth the target at the end, and it is the
    only monthly amount that is. *)
Theorem required_sip_reaches_target (t annual years : Q) (n : Z) :
  0 <= annual -> period_count years = Ok n -> (1 <= n)%Z ->
  exists s fv,
    required_sip t annual years = Ok s
    /\ future_value_sip s annual years = Ok fv
    /\ fv == t
    /\ (forall x fx, future_value_sip x annual years = Ok fx ->
          fx == t -> x == s).
Proof.
  intros A P N.
  destruct (required_sip_value t annual years n A P N) as (s & Es & Vs & Vs0).
  assert (N0 : (0 <= n)%Z) by lia.
  destruct (future_value_sip_value s annual years n A P N0)
    as (fv & Ef & Vf & Vf0).
  cbv zeta in Vs, Vs0, Vf, Vf0.
  pose proof (monthly_rate_nonneg annual A) as R0.
  assert (Np : 1 <= inject_Z n).
  { unfold inject_Z, Qle. simpl. lia. }
  exists s, fv. split; [exact Es|]. split; [exact Ef|].
  destruct (rate_zero_or_positive _ R0) as [[_ Z]|[_ Rp]].
  - specialize (Vs0 Z). specialize (Vf0 Z). split; [lra|].
    intros x fx Ex Fx.
    destruct (future_value_sip_value x annual years n A P N0)
      as (fx' & Ex' & _ & Vx0).
    rewrite Ex in Ex'. injection Ex' as <-. specialize (Vx0 Z).
    set (k := inject_Z n) in *. nra.
  - assert (G : 1 < (1 + monthly_rate_of annual) ^ n)
      by (apply Qpower_1_lt; [lra | lia]).
    set (r := monthly_rate_of annual) in *. set (g := (1 + r) ^ n) in *.
    assert (Fp : 0 < (1 + r) * (g - 1)) by (apply Qmult_lt_0_compat; lra).
    assert (Ft : fv == t).
    { assert (E : fv * r == t * r) by (rewrite Vf, Vs; reflexivity). nra. }
    split; [exact Ft|].
    intros x fx Ex Fx.
    destruct (future_value_sip_value x annual years n A P N0)
      as (fx' & Ex' & Vx & _).
    rewrite Ex in Ex'. injection Ex' as <-. cbv zeta in Vx. fold r g in Vx.
    assert (E : x * ((1 + r) * (g - 1)) == s * ((1 + r) * (g - 1))).
    { rewrite !Qmult_assoc, <- Vx, Vs, Fx. reflexivity. }
    set (a := (1 + r) * (g - 1)) in *. nra.
Qed.

Lemma required_sip_reaches_target_witness :
  (0 <= lit 12 1 /\ period_count (F := Q) (lit 1 1) = Ok 12%Z /\ (1 <= 12)%Z)
  /\ exists s fv,
       required_sip (lit 500000 1) (lit 12 1) (lit 1 1) = Ok s
       /\ future_value_sip s (lit 12 1) (lit 1 1) = Ok fv
       /\ fv == lit 500000 1.
Proof.
  assert (A : 0 <= lit 12 1) by (cbn; lra).
  assert (P : period_count (F := Q) (lit 1 1) = Ok 12%Z) by reflexivity.
  assert (N : (1 <= 12)%Z) by lia.
  split; [repeat split; assumption|].
  destruct (required_sip_reaches_target (lit 500000 1) (lit 12 1) (lit 1 1)
              12%Z A P N) as (s & fv & Es & Ef & E & _).
  exists s, fv. repeat split; assumption.
Defined.

(** ** Retirement *)

Lemma retirement_target_value (m : Q) (y ry : Z) (i s : Q) :
  0 <= i -> ~ s == 0 ->
  exists corpus fm,
    retirement_target m y ry i s = Ok (corpus, fm)
    /\ fm == m * (1 + i / 100) ^ y
    /\ corpus * (s / 100) == fm * 12.
Proof.
  intros I S. unfold retirement_target.
  change (truediv i (lit 100 1)) with (Ok (i / (100 # 1))). cbn [bind].
  assert (B : 1 <= 1 + i / 100).
  { assert (0 <= i / 100) by (apply Qle_shift_div_l; [reflexivity | lra]).
    lra. }
  cbn [fpow fadd fmul of_int Exact]. change (inject_Z 1) with 1.
  unfold Qpow.
  replace (Qeq_bool (1 + i / 100) 0) with false
    by (symmetry; apply Qeq_bool_ne; lra).
  rewrite andb_false_r. cbn [bind].
  rewrite truediv_nonzero by exact S. cbn [bind].
  eexists. eexists. split; [reflexivity|].
  split; [reflexivity|]. unfold inject_Z. field. exact S.
Qed.

(** With an inflation [>= 0] and a withdrawal rate that is not 0,
    [retirement_target] returns; the yearly withdrawal from the corpus at
    the withdrawal rate is exactly twelve times the monthly expense at
    retirement, and that expense is at least today's when the horizon is
    not negative. *)
Theorem retirement_corpus_covers_expense (m : Q) (y ry : Z) (i s : Q) :
  0 <= i -> ~ s == 0 ->
  exists corpus fm,
    retirement_target m y ry i s = Ok (corpus, fm)
    /\ corpus * (s / 100) == fm * 12
    /\ (0 <= m -> (0 <= y)%Z -> m <= fm).
Proof.
  intros I S.
  destruct (retirement_target_value m y ry i s I S) as (corpus & fm & E & F & C).
  exists corpus, fm. split; [exact E|]. split; [exact C|].
  intros M Y. rewrite F.
  assert (B : 1 <= 1 + i / 100).
  { assert (0 <= i / 100) by (apply Qle_shift_div_l; [reflexivity | lra]).
    lra. }
  pose proof (Qpower_1_le _ y B Y) as G.
  set (g := (1 + i / 100) ^ y) in *. nra.
Qed.

Lemma retirement_corpus_covers_expense_witness :
  (0 <= lit 6 1 /\ ~ lit 35 10 == 0)
  /\ exists corpus fm,
       retirement_target (lit 50000 1) 25 25 (lit 6 1) (lit 35 10)
       = Ok (corpus, fm)
       /\ corpus * (lit 35 10 / 100) == fm * 12.
Proof.
  assert (I : 0 <= lit 6 1) by (cbn; lra).
  assert (S : ~ lit 35 10 == 0) by (cbn; lra).
  split; [split; assumption|].
  destruct (retirement_corpus_covers_expense (lit 50000 1) 25 25
              (lit 6 1) (lit 35 10) I S) as (corpus & fm & E & C & _).
  exists corpus, fm. split; assumption.
Defined.

(** What [cmd_retirement] computes: nothing unless the retirement age is
    above the age; otherwise, for an inflation and a return [>= 0] and a
    withdrawal rate that is not 0, a corpus and a monthly investment that,
    made every month until retirement, is worth exactly the corpus. *)
Theorem retirement_plan_reaches_corpus (age retire_age : Z)
    (expense inflation swr rate : Q) :
  ((retire_age <= age)%Z ->
   retirement_plan age retire_age expense inflation swr rate = Ok None)
  /\ ((age < retire_age)%Z -> 0 <= inflation -> ~ swr == 0 -> 0 <= rate ->
      exists corpus fm sip fv,
        retirement_plan age retire_age expense inflation swr rate
        = Ok (Some (corpus, fm, sip))
        /\ corpus * (swr / 100) == fm * 12
        /\ future_value_sip sip rate (of_int (retire_age - age)) = Ok fv
        /\ fv == corpus).
Proof.
  unfold retirement_plan. cbv zeta. split.
  - intro L. replace (retire_age - age <=? 0)%Z with true
      by (symmetry; apply Z.leb_le; lia). reflexivity.
  - intros L I S R.
    replace (retire_age - age <=? 0)%Z with false
      by (symmetry; apply Z.leb_gt; lia).
    set (y := (retire_age - age)%Z) in *.
    destruct (retirement_target_value expense y 25 inflation swr I S)
      as (corpus & fm & E & _ & C).
    rewrite E. cbn [bind fst snd].
    pose proof (period_count_whole y) as P.
    assert (N : (1 <= y * 12)%Z) by lia.
    destruct (required_sip_value corpus rate (of_int y) _ R P N)
      as (s & Es & Vs & Vs0).
    assert (N0 : (0 <= y * 12)%Z) by lia.
    destruct (future_value_sip_value s rate (of_int y) _ R P N0)
      as (fv & Ef & Vf & Vf0).
    cbv zeta in Vs, Vs0, Vf, Vf0.
    rewrite Es. cbn [bind].
    exists corpus, fm, s, fv. split; [reflexivity|]. split; [exact C|].
    split; [exact Ef|].
    pose proof (monthly_rate_nonneg rate R) as R0.
    assert (Np : 1 <= inject_Z (y * 12)).
    { unfold inject_Z, Qle. simpl. lia. }
    destruct (rate_zero_or_positive _ R0) as [[_ Z]|[_ Rp]].
    + specialize (Vs0 Z). specialize (Vf0 Z). lra.
    + assert (E2 : fv * monthly_rate_of rate == corpus * monthly_rate_of rate)
        by (rewrite Vf, Vs; reflexivity).
      set (r := monthly_rate_of rate) in *. nra.
Qed.

Lemma retirement_plan_reaches_corpus_witness :
  ((35 < 60)%Z /\ 0 <= lit 6 1 /\ ~ lit 35 10 == 0 /\ 0 <= lit 12 1)
  /\ exists corpus fm sip fv,
       retirement_plan 35 60 (lit 50000 1) (lit 6 1) (lit 35 10) (lit 12 1)
       = Ok (Some (corpus, fm, sip))
       /\ future_value_sip sip (lit 12 1) (of_int (60 - 35)) = Ok fv
       /\ fv == corpus.
Proof.
  assert (L : (35 < 60)%Z) by lia.
  assert (I : 0 <= lit 6 1) by (cbn; lra).
  assert (S : ~ lit 35 10 == 0) by (cbn; lra).
  assert (R : 0 <= lit 12 1) by (cbn; lra).
  split; [repeat split; assumption|].
  destruct (proj2 (retirement_plan_reaches_corpus 35 60 (lit 50000 1)
                     (lit 6 1) (lit 35 10) (lit 12 1)) L I S R)
    as (corpus & fm & sip & fv & E & _ & Ef & F).
  exists corpus, fm, sip, fv. repeat split; assumption.
Defined.

(** ** More on the allocation *)

Lemma category_of_known (risk : string) : In (category_of risk) risk_categories.
Proof.
  unfold category_of. cbv zeta.
  destruct (existsb (String.eqb (strip (lower risk))) risk_categories) eqn:E.
  - apply existsb_exists in E. destruct E as (k & I & K).
    apply String.eqb_eq in K. rewrite K. exact I.
  - simpl. auto.
Qed.

(** Whatever the risk string, the base split is the one of its category. *)
Lemma base_split_category {F : Type} `{PyFloat F} (risk : string) :
  base_split risk = base_split (category_of risk).
Proof.
  unfold category_of. cbv zeta.
  destruct (existsb (String.eqb (strip (lower risk))) risk_categories) eqn:E.
  - unfold base_split. rewrite normalise_idem. reflexivity.
  - apply base_split_unknown. intro I.
    assert (X : existsb (String.eqb (strip (lower risk))) risk_categories
                = true).
    { apply existsb_exists. exists (strip (lower risk)).
      split; [exact I | apply String.eqb_refl]. }
    congruence.
Qed.

Lemma suggest_allocation_category {F : Type} `{PyFloat F}
    (risk : string) (h : Z) :
  suggest_allocation risk h
  = suggest_allocation (category_of risk) (horizon_band h).
Proof.
  rewrite suggest_allocation_band. unfold suggest_allocation.
  rewrite base_split_category. reflexivity.
Qed.

Lemma allocation_percents_category {F : Type} `{PyFloat F}
    (risk : string) (h : Z) :
  allocation_percents risk h
  = allocation_percents (category_of risk) (horizon_band h).
Proof.
  unfold allocation_percents. rewrite suggest_allocation_category.
  reflexivity.
Qed.

(** The whole percentages that [cmd_allocate] prints, for every risk
    string and every horizon: on binary64 they are the exact ones (the
    cut of [int] loses nothing), none is negative, and they add up to
    100. *)
Theorem allocation_percents_exact (risk : string) (h : Z) :
  exists e d g : Z,
    allocation_percents (F := float) risk h = Ok (e, d, g)
    /\ allocation_percents (F := Q) risk h = Ok (e, d, g)
    /\ (0 <= e /\ 0 <= d /\ 0 <= g /\ e + d + g = 100)%Z.
Proof.
  rewrite (allocation_percents_category (F := float)).
  rewrite (allocation_percents_category (F := Q)).
  destruct (category_of_known risk) as [<-|[<-|[<-|[]]]];
    destruct (horizon_band_cases h) as [->|[->| ->]];
    eexists _, _, _;
    (split; [vm_compute; reflexivity|]);
    (split; [vm_compute; reflexivity|]); lia.
Qed.

Lemma horizon_band_monotone (h1 h2 : Z) :
  (h1 <= h2)%Z -> (horizon_band h1 <= horizon_band h2)%Z.
Proof.
  unfold horizon_band. intro L.
  destruct (Z.geb_spec h1 10), (Z.geb_spec h2 10),
    (Z.leb_spec h1 3), (Z.leb_spec h2 3); lia.
Qed.

(** A longer horizon never lowers the equity weight and never raises the
    debt weight, and it leaves the gold weight as it is, for every risk
    string; at one horizon, the equity weight is strictly larger for
    [moderate] than for [conservative], and for [aggressive] than for
    [moderate].  Each of the two, over the rationals and on binary64. *)
Theorem allocation_ordered (risk : string) (h1 h2 : Z) :
  (h1 <= h2)%Z ->
  (exists a1 a2 : Allocation Q,
     suggest_allocation risk h1 = Ok a1 /\ suggest_allocation risk h2 = Ok a2
     /\ equity a1 <= equity a2 /\ debt a2 <= debt a1 /\ gold a1 == gold a2)
  /\ (exists a1 a2 : Allocation float,
        suggest_allocation risk h1 = Ok a1
        /\ suggest_allocation risk h2 = Ok a2
        /\ fleb (equity a1) (equity a2) = true
        /\ fleb (debt a2) (debt a1) = true
        /\ gold a1 = gold a2)
  /\ (exists c m a : Allocation Q,
        suggest_allocation "conservative" h1 = Ok c
        /\ suggest_allocation "moderate" h1 = Ok m
        /\ suggest_allocation "aggressive" h1 = Ok a
        /\ equity c < equity m /\ equity m < equity a)
  /\ (exists c m a : Allocation float,
        suggest_allocation "conservative" h1 = Ok c
        /\ suggest_allocation "moderate" h1 = Ok m
        /\ suggest_allocation "aggressive" h1 = Ok a
        /\ fltb (equity c) (equity m) = true
        /\ fltb (equity m) (equity a) = true).
Proof.
  intro L. apply horizon_band_monotone in L.
  rewrite !(suggest_allocation_category (F := Q) risk).
  rewrite !(suggest_allocation_category (F := float) risk).
  rewrite !(suggest_allocation_band (F := Q) _ h1).
  rewrite !(suggest_allocation_band (F := float) _ h1).
  split; [|split; [|split]].
  - destruct (category_of_known risk) as [<-|[<-|[<-|[]]]];
      destruct (horizon_band_cases h1) as [E1|[E1|E1]];
      destruct (horizon_band_cases h2) as [E2|[E2|E2]];
      rewrite E1, E2 in *; try (exfalso; lia);
      eexists _, _;
      (split; [vm_compute; reflexivity|]);
      (split; [vm_compute; reflexivity|]);
      cbn [equity debt gold]; repeat split; vm_compute; congruence.
  - destruct (category_of_known risk) as [<-|[<-|[<-|[]]]];
      destruct (horizon_band_cases h1) as [E1|[E1|E1]];
      destruct (horizon_band_cases h2) as [E2|[E2|E2]];
      rewrite E1, E2 in *; try (exfalso; lia);
      eexists _, _;
      (split; [vm_compute; reflexivity|]);
      (split; [vm_compute; reflexivity|]);
      cbn [equity debt gold]; repeat split; vm_compute; reflexivity.
  - destruct (horizon_band_cases h1) as [E1|[E1|E1]]; rewrite E1;
      eexists _, _, _;
      (split; [vm_compute; reflexivity|]);
      (split; [vm_compute; reflexivity|]);
      (split; [vm_compute; reflexivity|]);
      cbn [equity]; split; vm_compute; reflexivity.
  - destruct (horizon_band_cases h1) as [E1|[E1|E1]]; rewrite E1;
      eexists _, _, _;
      (split; [vm_compute; reflexivity|]);
      (split; [vm_compute; reflexivity|]);
      (split; [vm_compute; reflexivity|]);
      cbn [equity]; split; vm_compute; reflexivity.
Qed.

Lemma allocation_ordered_witness :
  (2 <= 15)%Z
  /\ (exists a1 a2 : Allocation Q,
        suggest_allocation "Aggressive" 2 = Ok a1
        /\ suggest_allocation "Aggressive" 15 = Ok a2
        /\ equity a1 <= equity a2 /\ debt a2 <= debt a1
        /\ gold a1 == gold a2).
Proof.
  assert (L : (2 <= 15)%Z) by lia.
  split; [exact L|].
  exact (proj1 (allocation_ordered "Aggressive" 2 15 L)).
Defined.

(** ** The dispatcher *)

Lemma starts_with_app (k x y : string) :
  starts_with k x = true -> starts_with k (x ++ y) = true.
Proof.
  revert x. induction k as [|a k IH]; intros x S; [reflexivity|].
  destruct x as [|b x]; [discriminate|].
  cbn [starts_with append] in *.
  apply andb_true_iff in S. destruct S as [E S].
  rewrite E, (IH x S). reflexivity.
Qed.

Lemma contains_empty (y : string) : contains "" y = true.
Proof. destruct y; reflexivity. Qed.

Lemma contains_app_l (k x y : string) :
  contains k x = true -> contains k (x ++ y) = true.
Proof.
  induction x as [|b x IH]; intro C.
  - cbn [contains] in C. destruct k; [apply contains_empty | discriminate].
  - cbn [contains] in C. change (String b x ++ y) with (String b (x ++ y)).
    cbn [contains]. apply orb_true_iff in C. destruct C as [S|C].
    + pose proof (starts_with_app k (String b x) y S) as S'.
      cbn [append] in S'. rewrite S'. reflexivity.
    + rewrite (IH C). apply orb_true_r.
Qed.

Lemma contains_app_r (k x y : string) :
  contains k y = true -> contains k (x ++ y) = true.
Proof.
  intro C. induction x as [|b x IH]; [exact C|].
  change (String b x ++ y) with (String b (x ++ y)).
  cbn [contains]. rewrite IH. apply orb_true_r.
Qed.

Lemma contains_inside (k pre w post : string) :
  contains k w = true -> contains k (pre ++ w ++ post) = true.
Proof.
  intro C. apply contains_app_r, contains_app_l. exact C.
Qed.

Lemma lower_app (a b : string) : lower (a ++ b) = lower a ++ lower b.
Proof.
  induction a as [|c a IH]; [reflexivity|].
  cbn [append lower]. rewrite IH. reflexivity.
Qed.

(** The first word of a string is a piece of it, and its start when the
    string does not start with a space. *)
Lemma split_ws_first (s : string) :
  forall w ws, split_ws s = w :: ws ->
    exists pre post, s = pre ++ w ++ post /\ (starts_clean s -> pre = "").
Proof.
  induction s as [|c rest IH]; intros w ws E; [discriminate|].
  cbn [split_ws] in E. cbn [starts_clean]. destruct (is_space c) eqn:Sc.
  - destruct (IH w ws E) as (pre & post & -> & _).
    exists (String c pre), post. split; [reflexivity | discriminate].
  - destruct rest as [|c' rest'].
    + injection E as <- <-. exists "", "". split; reflexivity.
    + destruct (is_space c') eqn:Sc'.
      * injection E as <- <-. exists "", (String c' rest').
        split; reflexivity.
      * destruct (split_ws (String c' rest')) as [|w' ws'] eqn:R.
        -- injection E as <- <-. exists "", (String c' rest').
           split; reflexivity.
        -- injection E as <- <-.
           destruct (IH w' ws' eq_refl) as (pre & post & P & Clean).
           rewrite (Clean Sc') in P. cbn [append] in P.
           exists "", post. cbn [append]. rewrite P. split; reflexivity.
Qed.

Lemma handle_freeform_none (text : string) :
  handle_freeform text = None ->
  forall k, In k [ "help"; "menu"; "what can you do"; "tax"; "emi"; "retire";
                   "emergency"; "allocate"; "allocation"; "sip"; "s.i.p";
                   "goal"; "profile" ] ->
    contains k (lower text) = false.
Proof.
  unfold handle_freeform. cbv zeta. cbn [existsb].
  set (t := lower text).
  destruct (contains "help" t) eqn:K1; [discriminate|].
  destruct (contains "menu" t) eqn:K2; [discriminate|].
  destruct (contains "what can you do" t) eqn:K3; [discriminate|].
  destruct (contains "tax" t) eqn:K4; [discriminate|].
  destruct (contains "emi" t) eqn:K5; [discriminate|].
  destruct (contains "retire" t) eqn:K6; [discriminate|].
  destruct (contains "emergency" t) eqn:K7; [discriminate|].
  destruct (contains "allocate" t) eqn:K8; [discriminate|].
  destruct (contains "allocation" t) eqn:K9; [discriminate|].
  destruct (contains "sip" t) eqn:K10; [discriminate|].
  destruct (contains "s.i.p" t) eqn:K11; [discriminate|].
  destruct (contains "goal" t) eqn:K12; [discriminate|].
  destruct (contains "profile" t) eqn:K13; [discriminate|].
  intros _ k I. cbn [In] in I.
  repeat (destruct I as [<-|I]; [assumption|]). contradiction.
Qed.

Lemma handlers_keys (key : string) (c : command) :
  dict_get handlers key = Some c ->
  In key [ "help"; "profile"; "emergency"; "sip"; "goal"; "emi";
           "retirement"; "allocate"; "tax" ].
Proof.
  unfold handlers. cbn [dict_get In].
  repeat match goal with
         | |- context [String.eqb ?k key] =>
             destruct (String.eqb_spec k key) as [E|_]; [tauto|]
         end.
  discriminate.
Qed.

(** The table of handlers of [run] is never used: a line whose first word
    is a key of the table holds a keyword of [handle_freeform], which has
    then answered already.  A line goes to a handler through
    [handle_freeform] or to "I didn't catch that"; a key of the table
    typed alone reaches, through [handle_freeform], the handler that the
    table holds for it. *)
Theorem handler_table_never_reached (line : string) :
  (forall c, run_step line <> Dispatch c)
  /\ (forall key c, dict_get handlers key = Some c ->
        run_step key = Freeform c).
Proof.
  split.
  - intros c. unfold run_step. cbv zeta. set (raw := strip line).
    destruct (raw =? "")%string; [discriminate|].
    destruct (existsb _ _); [discriminate|].
    destruct (handle_freeform raw) eqn:Hf; [discriminate|].
    destruct (dict_get handlers (lower (hd "" (split_ws raw)))) as [c'|] eqn:D;
      [|discriminate].
    exfalso.
    pose proof (handlers_keys _ _ D) as K.
    destruct (split_ws raw) as [|w ws] eqn:Sp;
      [cbn in K; repeat (destruct K as [K|K]; [discriminate K|]); exact K|].
    cbn [hd] in K, D.
    destruct (split_ws_first raw w ws Sp) as (pre & post & R & _).
    assert (L : lower raw = lower pre ++ lower w ++ lower post).
    { rewrite R, !lower_app. reflexivity. }
    assert (C : contains (keyword_of (lower w)) (lower raw) = true).
    { rewrite L. apply contains_inside.
      cbn [In] in K.
      repeat (destruct K as [<-|K]; [reflexivity|]). contradiction. }
    rewrite (handle_freeform_none raw Hf) in C; [discriminate|].
    cbn [In] in K.
    repeat (destruct K as [<-|K]; [cbn; tauto|]). contradiction.
  - intros key c D.
    pose proof (handlers_keys _ _ D) as K. cbn [In] in K.
    repeat (destruct K as [<-|K];
            [vm_compute in D; injection D as <-; reflexivity|]).
    contradiction.
Qed.

(** ** [currency] *)

Lemma string_of_uint_digits (d : Decimal.uint) :
  only_digits (NilEmpty.string_of_uint d) = true.
Proof. induction d; cbn; assumption || reflexivity. Qed.

Lemma digits_only_digits (z : Z) : only_digits (digits z) = true.
Proof.
  unfold digits, NilZero.string_of_uint.
  destruct (N.to_uint (Z.to_N z)); first
    [ reflexivity | apply string_of_uint_digits ].
Qed.

Lemma two_digits_only_digits (z : Z) : only_digits (two_digits z) = true.
Proof.
  unfold two_digits. destruct (z <? 10)%Z; [cbn [append only_digits]|];
    rewrite digits_only_digits; reflexivity.
Qed.

Lemma digit_is_not (c a : ascii) :
  is_digit c = false -> is_digit a = true -> Ascii.eqb a c = false.
Proof.
  intros C A. destruct (Ascii.eqb_spec a c) as [->|]; congruence.
Qed.

Lemma only_digits_free (c : ascii) (s : string) :
  is_digit c = false -> only_digits s = true -> has_char c s = false.
Proof.
  intros C. induction s as [|a s IH]; [reflexivity|].
  cbn [only_digits has_char]. intro D. apply andb_true_iff in D.
  destruct D as [A D]. rewrite (digit_is_not c a C A), (IH D). reflexivity.
Qed.

Lemma remove_char_free (c : ascii) (s : string) :
  has_char c s = false -> remove_char c s = s.
Proof.
  induction s as [|a s IH]; [reflexivity|].
  cbn [has_char remove_char]. intro N. apply orb_false_iff in N.
  destruct N as [E N]. rewrite E, (IH N). reflexivity.
Qed.

Lemma remove_char_app (c : ascii) (a b : string) :
  remove_char c (a ++ b) = remove_char c a ++ remove_char c b.
Proof.
  induction a as [|x a IH]; [reflexivity|].
  cbn [append remove_char]. destruct (Ascii.eqb x c); rewrite IH; reflexivity.
Qed.

(** The separators of the format go away with [replace(',', '')]. *)
Lemma remove_commas3 (s : string) :
  has_char "," s = false -> remove_char "," (commas3 s) = s.
Proof.
  induction s as [|a s IH]; [reflexivity|].
  cbn [has_char commas3 remove_char]. intro N. apply orb_false_iff in N.
  destruct N as [E N]. rewrite E.
  destruct ((0 <? String.length s)%nat && (String.length s mod 3 =? 0)%nat);
    cbn [remove_char Ascii.eqb Bool.eqb]; rewrite (IH N); reflexivity.
Qed.

Lemma commas3_free (c : ascii) (s : string) :
  Ascii.eqb "," c = false -> has_char c s = false ->
  has_char c (commas3 s) = false.
Proof.
  intros C. induction s as [|a s IH]; [reflexivity|].
  cbn [has_char commas3]. intro N. apply orb_false_iff in N.
  destruct N as [E N]. rewrite E.
  destruct ((0 <? String.length s)%nat && (String.length s mod 3 =? 0)%nat);
    cbn [has_char orb]; rewrite ?C, (IH N); reflexivity.
Qed.

Lemma split_on_free (c : ascii) (s : string) :
  has_char c s = false -> split_on c s = [s].
Proof.
  induction s as [|a s IH]; [reflexivity|].
  cbn [has_char split_on]. intro N. apply orb_false_iff in N.
  destruct N as [E N]. rewrite E, (IH N). reflexivity.
Qed.

Lemma split_on_once (c : ascii) (a b : string) :
  has_char c a = false -> has_char c b = false ->
  split_on c (a ++ String c b) = [a; b].
Proof.
  intros A B. induction a as [|x a IH].
  - cbn [append split_on]. rewrite Ascii.eqb_refl, (split_on_free c b B).
    reflexivity.
  - cbn [has_char] in A. apply orb_false_iff in A. destruct A as [E A].
    cbn [append split_on]. rewrite E, (IH A). reflexivity.
Qed.

(** *** Slices *)

Lemma substring_split (s : string) :
  forall n m, (String.length s <= n + m)%nat ->
    substring 0 n s ++ substring n m s = s.
Proof.
  induction s as [|c s IH]; intros n m L.
  - destruct n, m; reflexivity.
  - destruct n as [|n].
    + destruct m as [|m]; [cbn in L; lia|].
      cbn [substring append]. f_equal.
      specialize (IH 0%nat m). cbn [String.length] in L.
      assert (E : substring 0 0 s = "") by (destruct s; reflexivity).
      rewrite E in IH. cbn [append] in IH. apply IH. lia.
    + cbn [substring append]. f_equal. apply IH. cbn [String.length] in L.
      lia.
Qed.

Lemma substring_length (s : string) :
  forall n m,
    String.length (substring n m s) = Nat.min m (String.length s - n).
Proof.
  induction s as [|c s IH]; intros n m.
  - destruct n, m; reflexivity.
  - destruct n as [|n].
    + destruct m as [|m]; [reflexivity|].
      cbn [substring String.length]. rewrite IH. cbn. lia.
    + cbn [substring String.length]. rewrite IH. reflexivity.
Qed.

Lemma drop_take_last (k : nat) (s : string) :
  drop_last k s ++ take_last k s = s.
Proof. unfold drop_last, take_last. apply substring_split. lia. Qed.

Lemma drop_last_length (k : nat) (s : string) :
  String.length (drop_last k s) = (String.length s - k)%nat.
Proof. unfold drop_last. rewrite substring_length. lia. Qed.

Lemma take_last_length (k : nat) (s : string) :
  String.length (take_last k s) = Nat.min k (String.length s).
Proof. unfold take_last. rewrite substring_length. lia. Qed.

(** *** The loop over the head *)

Lemma concat_plain_app (l1 l2 : list string) :
  String.concat "" (l1 ++ l2) = String.concat "" l1 ++ String.concat "" l2.
Proof.
  induction l1 as [|x l1 IH]; [reflexivity|].
  destruct l1 as [|y l1].
  - cbn [app String.concat]. destruct l2 as [|z l2].
    + cbn [String.concat]. induction x; cbn [append]; congruence.
    + cbn [String.concat append]. reflexivity.
  - change (String.concat "" ((x :: y :: l1) ++ l2))
      with (x ++ "" ++ String.concat "" ((y :: l1) ++ l2)).
    rewrite IH. cbn [String.concat append].
    induction x; cbn [append]; [reflexivity|]. f_equal. assumption.
Qed.

Lemma concat_plain_cons (x : string) (l : list string) :
  String.concat "" (x :: l) = x ++ String.concat "" l.
Proof. exact (concat_plain_app [x] l). Qed.

Lemma head_groups_loop_done (fuel : nat) (groups : list string) :
  head_groups_loop fuel "" groups = groups.
Proof. destruct fuel; reflexivity. Qed.

(** The loop loses no character: its groups, put together, are the head
    followed by the groups it started from. *)
Lemma head_groups_loop_content (fuel : nat) :
  forall head groups, (String.length head <= fuel)%nat ->
    String.concat "" (head_groups_loop fuel head groups)
    = head ++ String.concat "" groups.
Proof.
  induction fuel as [|fuel IH]; intros head groups L.
  - destruct head; [reflexivity | cbn in L; lia].
  - destruct head as [|c head]; [reflexivity|].
    cbn [head_groups_loop]. set (h := String c head) in *.
    rewrite IH.
    + rewrite concat_plain_cons.
      rewrite <- (drop_take_last 2 h) at 3.
      generalize (drop_last 2 h) (take_last 2 h) (String.concat "" groups).
      intros a b d. induction a as [|x a IHa]; [reflexivity|].
      cbn [append]. f_equal. exact IHa.
    + rewrite drop_last_length. cbn [String.length] in *. lia.
Qed.

(** From a head that is not empty, the loop gives a first group of one or
    two characters and pairs after it. *)
Lemma head_groups_loop_shape (fuel : nat) :
  forall head groups,
    (String.length head <= fuel)%nat -> head <> "" ->
    all_pairs groups = true ->
    exists g rest,
      head_groups_loop fuel head groups = g :: rest
      /\ (String.length g = 1 \/ String.length g = 2)%nat
      /\ all_pairs rest = true.
Proof.
  induction fuel as [|fuel IH]; intros head groups L N A.
  - destruct head; [contradiction | cbn in L; lia].
  - destruct head as [|c head]; [contradiction|].
    cbn [head_groups_loop]. set (h := String c head) in *.
    pose proof (take_last_length 2 h) as T.
    pose proof (drop_last_length 2 h) as D.
    destruct (drop_last 2 h) as [|c' h'] eqn:E.
    + rewrite head_groups_loop_done.
      exists (take_last 2 h), groups. split; [reflexivity|].
      split; [|exact A]. subst h. cbn [String.length] in *. lia.
    + apply IH.
      * rewrite D. subst h. cbn [String.length] in *. lia.
      * discriminate.
      * cbn [all_pairs forallb]. fold (all_pairs groups). rewrite A, T.
        assert (2 <= String.length h)%nat.
        { cbn [String.length] in D. lia. }
        replace (Nat.min 2 (String.length h)) with 2%nat by lia.
        reflexivity.
Qed.

Lemma pairs_then_three_app (groups : list string) (last : string) :
  all_pairs groups = true -> String.length last = 3%nat ->
  pairs_then_three (groups ++ [last]) = true.
Proof.
  intros A L. induction groups as [|g rest IH].
  - cbn. rewrite L. reflexivity.
  - cbn [all_pairs forallb] in A. apply andb_true_iff in A.
    destruct A as [G A]. cbn [app pairs_then_three].
    destruct (rest ++ [last])%list eqn:E.
    + destruct rest; discriminate.
    + rewrite G. exact (IH A).
Qed.

Lemma remove_separators (c : ascii) (groups : list string) :
  remove_char c (String.concat (String c "") groups)
  = remove_char c (String.concat "" groups).
Proof.
  induction groups as [|g rest IH]; [reflexivity|].
  destruct rest as [|g' rest]; [reflexivity|].
  change (String.concat (String c "") (g :: g' :: rest))
    with (g ++ String c "" ++ String.concat (String c "") (g' :: rest)).
  rewrite concat_plain_cons, !remove_char_app, IH.
  cbn [remove_char]. rewrite Ascii.eqb_refl. reflexivity.
Qed.

Lemma indian_groups_content (whole : string) :
  String.concat "" (indian_groups whole) = whole.
Proof.
  unfold indian_groups. cbv zeta.
  rewrite concat_plain_app, head_groups_loop_content by lia.
  cbn [String.concat]. rewrite <- (drop_take_last 3 whole) at 3.
  generalize (drop_last 3 whole) (take_last 3 whole). intros a b.
  induction a as [|x a IHa]; [reflexivity|].
  cbn [append]. f_equal. exact IHa.
Qed.

Lemma indian_grouping_digits_kept (whole : string) :
  has_char "," whole = false ->
  remove_char "," (indian_grouping whole) = whole.
Proof.
  intro Free. unfold indian_grouping.
  destruct (3 <? String.length whole)%nat;
    [|apply remove_char_free; exact Free].
  rewrite remove_separators, indian_groups_content.
  apply remove_char_free. exact Free.
Qed.

(** The Indian grouping moves no digit: with the commas taken out again
    the string is the one given.  A string of more than three characters
    is cut into a first group of one or two, then groups of two, then a
    last group of three. *)
Theorem indian_grouping_round_trip (whole : string) :
  has_char "," whole = false ->
  remove_char "," (indian_grouping whole) = whole
  /\ ((3 < String.length whole)%nat ->
      indian_grouping whole = String.concat "," (indian_groups whole)
      /\ String.concat "" (indian_groups whole) = whole
      /\ indian_shape (indian_groups whole) = true).
Proof.
  intro Free.
  pose proof (indian_groups_content whole) as Content.
  split; [apply indian_grouping_digits_kept; exact Free|].
  intro Long. unfold indian_grouping.
  replace (3 <? String.length whole)%nat with true
    by (symmetry; apply Nat.ltb_lt; exact Long).
  split; [reflexivity|]. split; [exact Content|].
  unfold indian_groups. cbv zeta.
  pose proof (drop_last_length 3 whole) as D.
  pose proof (take_last_length 3 whole) as T.
  destruct (head_groups_loop_shape (String.length (drop_last 3 whole))
              (drop_last 3 whole) [] (Nat.le_refl _))
    as (g & rest & E & G & A).
  - intro Z. rewrite Z in D. cbn in D. lia.
  - reflexivity.
  - rewrite E. cbn [app indian_shape].
    destruct (rest ++ [take_last 3 whole])%list eqn:R;
      [destruct rest; discriminate|].
    rewrite <- R. rewrite pairs_then_three_app; [|exact A|lia].
    destruct G as [-> | ->]; reflexivity.
Qed.

Lemma indian_grouping_round_trip_witness :
  has_char "," "12345678" = false
  /\ remove_char "," (indian_grouping "12345678") = "12345678"
  /\ indian_shape (indian_groups "12345678") = true.
Proof.
  assert (Free : has_char "," "12345678" = false) by reflexivity.
  split; [exact Free|].
  destruct (indian_grouping_round_trip "12345678" Free) as [R S].
  split; [exact R|]. apply S. cbn. lia.
Defined.

(** [currency] of a finite amount: the sign, the currency sign, the digits
    of the whole part of the amount rounded to hundredths in the Indian
    grouping, a point and two decimals; the thousands separators put in
    by the format and taken out again leave the digits as they were.  And
    [currency] of an amount that is not finite fails.  At every
    instance. *)
Theorem currency_format {F : Type} `{PyFloat F} (n : F) :
  (forall q, exact n = Some q ->
     let k := round_half_even (Qabs q * 100) in
     currency n
     = Some ((if fltb n (of_int 0) then "-" ++ rupee else rupee)
             ++ indian_grouping (digits (k / 100))
             ++ "." ++ two_digits (k mod 100))
     /\ remove_char "," (indian_grouping (digits (k / 100)))
        = digits (k / 100))
  /\ (exact n = None -> currency n = None).
Proof.
  split.
  - intros q E k. unfold currency. rewrite E. cbv zeta.
    unfold format_comma_2f. cbv zeta. fold k.
    set (W := digits (k / 100)). set (Fr := two_digits (k mod 100)).
    assert (Wd : only_digits W = true) by apply digits_only_digits.
    assert (Fd : only_digits Fr = true) by apply two_digits_only_digits.
    assert (Wc : has_char "," W = false)
      by (apply only_digits_free; [reflexivity | exact Wd]).
    assert (Wp : has_char "." (commas3 W) = false).
    { apply commas3_free; [reflexivity|].
      apply only_digits_free; [reflexivity | exact Wd]. }
    assert (Fp : has_char "." Fr = false)
      by (apply only_digits_free; [reflexivity | exact Fd]).
    change (commas3 W ++ "." ++ Fr) with (commas3 W ++ String "." Fr).
    rewrite (split_on_once "." _ _ Wp Fp).
    cbn [nth nth_error]. rewrite (remove_commas3 W Wc).
    split; [reflexivity|].
    apply (indian_grouping_digits_kept W Wc).
  - intro E. unfold currency. rewrite E. reflexivity.
Qed.
